(** * Cohort merger: [run_flexible_cohort_analysis] of [main-code.py]

    A shallow embedding of the pandas pipeline of [main-code.py] and the
    properties its specification states about it.

    - Cells are tagged values (number, date, string, missing).
    - A [DataFrame] is an ordered list of column labels and a list of
      rows; a row maps a column label to its cell.
    - DataFrames are Python objects: they live in a heap and are named
      by references, so that in-place assignments ([df['OS'] = ...]) and
      the copies the code takes are visible.
    - The function runs in a state and exception monad: the state holds
      the heap and the output channel (printed lines, shown figures), a
      run ends in a value or in a raised Python exception. *)

From Stdlib Require Import ZArith Sorting.Sorted Sorting.Permutation Structures.OrdersEx.
From stdpp Require Import gmap strings list sorting pretty.

Open Scope Z_scope.

(** ** Cell values

    A number (an integer), a date (its day number), a string, or the
    marker of a missing cell (pandas' NaN and NaT). *)

Inductive value : Type :=
  | VNum (n : Z)
  | VDate (d : Z)
  | VStr (s : string)
  | VMissing.

#[global] Instance value_eq_dec : EqDecision value.
Proof. solve_decision. Defined.

(** The order pandas sorts one column by: cells of one kind in their
    natural order, missing cells last ([na_position='last']).  A column
    that mixes kinds is refused before any comparison (see
    [sort_values]), so the order between kinds is never observed; it is
    fixed here by [kind] to keep the comparison total. *)
Definition kind (v : value) : Z :=
  match v with
  | VNum _ => 0
  | VDate _ => 1
  | VStr _ => 2
  | VMissing => 3
  end.

Definition value_compare (a b : value) : comparison :=
  match a, b with
  | VNum x, VNum y => x ?= y
  | VDate x, VDate y => x ?= y
  | VStr x, VStr y => String_as_OT.compare x y
  | _, _ => kind a ?= kind b
  end.

Definition value_ltb (a b : value) : bool :=
  match value_compare a b with Lt => true | _ => false end.

Definition value_lt (a b : value) : Prop := value_compare a b = Lt.

(** ** Python exceptions and results *)

Inductive exn : Type :=
  | KeyError (key : string)
  | TypeError.

(** [Fault] is not a Python exception: it is the outcome of following a
    reference that names no object, which no Python program can hold. *)
Inductive res (A : Type) : Type :=
  | Ok (a : A)
  | Raise (e : exn)
  | Fault.
Arguments Ok {A} a.
Arguments Raise {A} e.
Arguments Fault {A}.

#[global] Instance res_ret : MRet res := λ A a, Ok a.
#[global] Instance res_bind : MBind res := λ A B f r,
  match r with
  | Ok a => f a
  | Raise e => Raise e
  | Fault => Fault
  end.

(** Python's [<] on two cells.  Cells of one kind compare by their
    order.  A missing cell is NaN in a numeric column and NaT in a
    datetime column, and every comparison with it is [False]; in a
    column of strings it is the float NaN, and comparing a string with
    a float raises [TypeError], as comparing cells of two kinds does. *)
Definition py_lt (a b : value) : res bool :=
  match a, b with
  | VNum x, VNum y => Ok (x <? y)
  | VDate x, VDate y => Ok (x <? y)
  | VStr x, VStr y =>
      Ok (match String_as_OT.compare x y with Lt => true | _ => false end)
  | VMissing, VMissing => Ok false
  | VMissing, VNum _ | VNum _, VMissing => Ok false
  | VMissing, VDate _ | VDate _, VMissing => Ok false
  | _, _ => Raise TypeError
  end.

(** [sorted(l)].  An insertion sort: on elements that [<] orders
    totally every sort returns the same list, and on a list that is
    already ascending CPython's sort, as this one, compares neighbours
    only and returns the list as it is. *)
Fixpoint py_insert (x : value) (l : list value) : res (list value) :=
  match l with
  | [] => Ok [x]
  | y :: l' =>
      b ← py_lt y x;
      if (b : bool) then l'' ← py_insert x l'; Ok (y :: l'') else Ok (x :: l)
  end.

Fixpoint py_sorted (l : list value) : res (list value) :=
  match l with
  | [] => Ok []
  | x :: l' => s ← py_sorted l'; py_insert x s
  end.

(** ** Lists: distinct elements and stable sorting *)

(** The distinct elements of a list in order of first appearance
    ([Series.unique], and the column union of [pd.concat]). *)
Fixpoint unique {A} `{EqDecision A} (l : list A) : list A :=
  match l with
  | [] => []
  | x :: l' => x :: filter (λ y, y ≠ x) (unique l')
  end.

Section StableSort.
Context {A : Type} (leb : A → A → bool).

Fixpoint insert_sorted (x : A) (l : list A) : list A :=
  match l with
  | [] => [x]
  | y :: l' => if leb x y then x :: l else y :: insert_sorted x l'
  end.

(** A stable sort: an element is placed before the elements it ties
    with, which stood after it. *)
Fixpoint stable_sort (l : list A) : list A :=
  match l with
  | [] => []
  | x :: l' => insert_sorted x (stable_sort l')
  end.
End StableSort.

(** ** DataFrames *)

Record DataFrame : Type := mkFrame {
  columns : list string;
  rows : list (gmap string value)
}.

Definition cell (r : gmap string value) (c : string) : value :=
  default VMissing (r !! c).

(** The cells of a row under the labels [cols], those of a label
    outside [own] (the columns of the frame the row comes from) missing. *)
Definition reindex (own cols : list string) (r : gmap string value)
  : gmap string value :=
  list_to_map
    ((λ c, (c, if decide (c ∈ own) then cell r c else VMissing)) <$> cols).

(** [df[c]] as a Series: the cells of column [c], row by row. *)
Definition column (c : string) (df : DataFrame) : list value :=
  (λ r, cell r c) <$> rows df.

(** [df[c] = v] for a scalar [v]: the column is overwritten in place
    when it exists and appended as the last column otherwise. *)
Definition add_label (c : string) (cols : list string) : list string :=
  if decide (c ∈ cols) then cols else cols ++ [c].

Definition set_scalar (c : string) (v : value) (df : DataFrame) : DataFrame :=
  {| columns := add_label c (columns df);
     rows := (λ r, <[c := v]> r) <$> rows df |}.

(** [df[c] = s] for a Series [s] over the rows of [df]. *)
Definition set_series (c : string) (s : list value) (df : DataFrame) : DataFrame :=
  {| columns := add_label c (columns df);
     rows := zip_with (λ r v, <[c := v]> r) (rows df) s |}.

(** [pd.concat(dfs, ignore_index=True)]: the columns are the union of
    the frames' columns in order of first appearance, the rows follow
    frame by frame, and a cell of a column its frame lacks is missing.
    The rows are renumbered, so that the index of the result has no
    repeats and a Series taken from a frame lines up with its rows. *)
Definition concat_frames (dfs : list DataFrame) : DataFrame :=
  let cols := unique (mjoin (columns <$> dfs)) in
  {| columns := cols;
     rows := dfs ≫= (λ df, reindex (columns df) cols <$> rows df) |}.

(** [df.sort_values(by=keys)] with several keys: [KeyError] for the
    first key that is no column; the cells of each key column are then
    ranked ([TypeError] when two cells that are not missing are of
    different kinds) and the rows sorted stably by their ranks, key by
    key, missing cells last. *)
Fixpoint lex_compare (keys : list string) (r1 r2 : gmap string value) : comparison :=
  match keys with
  | [] => Eq
  | c :: keys' =>
      match value_compare (cell r1 c) (cell r2 c) with
      | Eq => lex_compare keys' r1 r2
      | o => o
      end
  end.

Definition row_leb (keys : list string) (r1 r2 : gmap string value) : bool :=
  match lex_compare keys r1 r2 with Gt => false | _ => true end.

Definition same_kind (a b : value) : bool :=
  match a, b with
  | VMissing, _ | _, VMissing => true
  | _, _ => kind a =? kind b
  end.

Fixpoint homogeneous (l : list value) : bool :=
  match l with
  | [] => true
  | x :: l' => forallb (same_kind x) l' && homogeneous l'
  end.

Definition sort_values (keys : list string) (df : DataFrame) : res DataFrame :=
  match list_find (λ c, c ∉ columns df) keys with
  | Some (_, c) => Raise (KeyError c)
  | None =>
      if forallb (λ c, homogeneous (column c df)) keys
      then Ok {| columns := columns df;
                 rows := stable_sort (row_leb keys) (rows df) |}
      else Raise TypeError
  end.

(** A dict, as the list of the pairs it is built from: a key given
    twice keeps the value given last. *)
Fixpoint dict_get {V} (d : list (value * V)) (k : value) : option V :=
  match d with
  | [] => None
  | (k', v) :: d' =>
      match dict_get d' k with
      | Some w => Some w
      | None => if decide (k' = k) then Some v else None
      end
  end.

(** [s.map(d)] for a dict [d]: a cell that is no key of [d] maps to a
    missing cell. *)
Definition series_map (d : list (value * string)) (s : list value) : list value :=
  (λ v, match dict_get d v with Some w => VStr w | None => VMissing end) <$> s.

(** [df[c]] for one label: [KeyError] when [c] is no column. *)
Definition getitem (c : string) (df : DataFrame) : res (list value) :=
  if decide (c ∈ columns df) then Ok (column c df) else Raise (KeyError c).

(** [df[cols]] for a list of labels: [KeyError] when a label is no
    column, else a new frame with these columns in this order. *)
Definition select (cols : list string) (df : DataFrame) : res DataFrame :=
  match list_find (λ c, c ∉ columns df) cols with
  | Some (_, c) => Raise (KeyError c)
  | None => Ok {| columns := cols;
                  rows := reindex (columns df) cols <$> rows df |}
  end.

(** [df.melt(id_vars=ids, value_vars=vals, var_name=var, value_name=val)]:
    one row per (value column, row), column by column. *)
Definition melt (ids vals : list string) (var val : string) (df : DataFrame)
  : res DataFrame :=
  match list_find (λ c, c ∉ columns df) (ids ++ vals) with
  | Some (_, c) => Raise (KeyError c)
  | None =>
      Ok {| columns := ids ++ [var; val];
            rows := vals ≫= (λ c,
                      (λ r, <[val := cell r c]>
                              (<[var := VStr c]> (reindex (columns df) ids r)))
                      <$> rows df) |}
  end.

(** ** The heap, the output channel and the monad *)

Definition loc := nat.

(** A plotly figure, as far as the code configures it. *)
Record Figure : Type := mkFigure {
  fig_data : DataFrame;
  fig_x : string;
  fig_y : string;
  fig_color : string;
  fig_points : string;
  fig_title : string;
  fig_category_orders : list (string * list string);
  fig_boxmode : option string
}.

Inductive event : Type :=
  | Shown (fig : Figure)
  | Printed (line : string).

Record state : Type := mkState {
  heap : list DataFrame;
  output : list event
}.

Definition M (A : Type) : Type := state → res A * state.

#[global] Instance M_ret : MRet M := λ A a st, (Ok a, st).
#[global] Instance M_bind : MBind M := λ A B f m st,
  match m st with
  | (Ok a, st') => f a st'
  | (Raise e, st') => (Raise e, st')
  | (Fault, st') => (Fault, st')
  end.

Definition lift {A} (r : res A) : M A := λ st, (r, st).

Definition deref (l : loc) : M DataFrame := λ st,
  match heap st !! l with
  | Some df => (Ok df, st)
  | None => (Fault, st)
  end.

Definition alloc (df : DataFrame) : M loc := λ st,
  (Ok (length (heap st)), {| heap := heap st ++ [df]; output := output st |}).

Definition store (l : loc) (df : DataFrame) : M unit := λ st,
  match heap st !! l with
  | Some _ => (Ok (), {| heap := <[l := df]> (heap st); output := output st |})
  | None => (Fault, st)
  end.

Definition emit (e : event) : M unit := λ st,
  (Ok (), {| heap := heap st; output := output st ++ [e] |}).

Fixpoint for_in {A S} (l : list A) (body : A → S → M S) (s : S) : M S :=
  match l with
  | [] => mret s
  | x :: l' => s' ← body x s; for_in l' body s'
  end.

Fixpoint deref_all (ls : list loc) : M (list DataFrame) :=
  match ls with
  | [] => mret []
  | l :: ls' => df ← deref l; dfs ← deref_all ls'; mret (df :: dfs)
  end.

(** The pandas and plotly calls of the code, on references. *)

(** [df.copy()]: a new object with the same columns and cells. *)
Definition df_copy (df : loc) : M loc :=
  d ← deref df; alloc d.

(** [df[c] = v], in place. *)
Definition df_setitem (df : loc) (c : string) (v : value) : M unit :=
  d ← deref df; store df (set_scalar c v d).

Definition df_setitem_series (df : loc) (c : string) (s : list value) : M unit :=
  d ← deref df; store df (set_series c s d).

Definition df_getitem (df : loc) (c : string) : M (list value) :=
  d ← deref df; lift (getitem c d).

Definition df_columns (df : loc) : M (list string) :=
  d ← deref df; mret (columns d).

Definition pd_concat (dfs : list loc) : M loc :=
  ds ← deref_all dfs; alloc (concat_frames ds).

(** [df.sort_values(by=keys)] is not in place: it returns a new frame. *)
Definition df_sort_values (df : loc) (keys : list string) : M loc :=
  d ← deref df; d' ← lift (sort_values keys d); alloc d'.

Definition df_select (df : loc) (cols : list string) : M loc :=
  d ← deref df; d' ← lift (select cols d); alloc d'.

Definition df_melt (df : loc) (ids vals : list string) (var val : string) : M loc :=
  d ← deref df; d' ← lift (melt ids vals var val d); alloc d'.

Definition px_box (df : loc) (x y color points title : string)
    (category_orders : list (string * list string)) : M Figure :=
  d ← deref df;
  mret {| fig_data := d; fig_x := x; fig_y := y; fig_color := color;
          fig_points := points; fig_title := title;
          fig_category_orders := category_orders; fig_boxmode := None |}.

Definition update_layout_boxmode (mode : string) (fig : Figure) : Figure :=
  {| fig_data := fig_data fig; fig_x := fig_x fig; fig_y := fig_y fig;
     fig_color := fig_color fig; fig_points := fig_points fig;
     fig_title := fig_title fig;
     fig_category_orders := fig_category_orders fig;
     fig_boxmode := Some mode |}.

Definition show (fig : Figure) : M unit := emit (Shown fig).
Definition print (line : string) : M unit := emit (Printed line).

(** ** The pipeline *)

(** What the function returns: the final frame, or the message of the
    empty-input check. *)
Inductive retval : Type :=
  | RFrame (df : loc)
  | RStr (s : string).

Definition weeks_of_interest : list string :=
  ["Week 8"; "Week 12"; "Week 16"; "Week 20";
   "Week 24"; "Week 28"; "Week 32"; "Week 36"; "Week 40"].

Definition target_columns : list string :=
  ["Acquisition Week"; "Week Number"; "OS";
   "Total Subscriptions"; "Total Unsubscriptions"; "Subs Remaining";
   "Payout Total (€)"; "Total Gross (€)"; "Margin"] ++ weeks_of_interest.

(** [{date: f"Week {i+1}" for i, date in enumerate(unique_dates)}] *)
Definition week_map (unique_dates : list value) : list (value * string) :=
  imap (λ i date, (date, "Week " +:+ pretty (i + 1)%nat)) unique_dates.

Definition run_flexible_cohort_analysis (data_frames_dict : list (string * loc))
  : M retval :=
  (* STEP 1: data preparation and merging *)
  processed_dfs ← for_in data_frames_dict
    (λ '(source_name, df_raw) processed_dfs,
       df_temp ← df_copy df_raw;
       df_setitem df_temp "OS" (VStr source_name);;
       mret (processed_dfs ++ [df_temp]))
    [];
  if bool_decide (processed_dfs = []) then
    mret (RStr "Error: No dataframes provided.")
  else
    df_combined ← pd_concat processed_dfs;
    df_combined ← df_sort_values df_combined ["Acquisition Week"; "OS"];
    dates ← df_getitem df_combined "Acquisition Week";
    unique_dates ← lift (py_sorted (unique dates));
    let date_to_week_map := week_map unique_dates in
    dates ← df_getitem df_combined "Acquisition Week";
    df_setitem_series df_combined "Week Number"
      (series_map date_to_week_map dates);;
    present ← df_columns df_combined;
    let final_cols := filter (λ col, col ∈ present) target_columns in
    df_final ← df_select df_combined final_cols;
    (* STEP 2: dispersion analysis (grouped boxplot) *)
    present ← df_columns df_final;
    let cols_to_melt := filter (λ col, col ∈ present) weeks_of_interest in
    (if bool_decide (cols_to_melt ≠ []) then
       df_long ← df_melt df_final ["OS"] cols_to_melt "Cohort_Period" "Value (€)";
       fig_box ← px_box df_long "Cohort_Period" "Value (€)" "OS" "all"
                   "Cohort Performance Distribution (Multi-Source Comparison)"
                   [("Cohort_Period", weeks_of_interest)];
       show (update_layout_boxmode "group" fig_box)
     else
       print "Warning: No columns found for the requested weeks (Week 8, 12, etc.) in the data.");;
    mret (RFrame df_final).

(** ** The pipeline on frames

    The steps of [run_flexible_cohort_analysis] on the frames
    themselves, without the heap: [run_analyse] below shows that the
    function returns a reference to [analyse] of the frames its
    argument names, or raises what [analyse] raises. *)

(** The datasets a dict of references names. *)
Definition resolve (h : list DataFrame) (d : list (string * loc))
  : option (list (string * DataFrame)) :=
  mapM (λ '(source_name, df_raw), (λ df, (source_name, df)) <$> h !! df_raw) d.

Definition tag (input : string * DataFrame) : DataFrame :=
  set_scalar "OS" (VStr input.1) input.2.

Definition add_week_number (unique_dates dates : list value) (df : DataFrame)
  : DataFrame :=
  set_series "Week Number" (series_map (week_map unique_dates) dates) df.

Definition final_columns (df : DataFrame) : list string :=
  filter (λ col, col ∈ columns df) target_columns.

Definition analyse (inputs : list (string * DataFrame)) : res DataFrame :=
  sorted ← sort_values ["Acquisition Week"; "OS"] (concat_frames (tag <$> inputs));
  dates ← getitem "Acquisition Week" sorted;
  unique_dates ← py_sorted (unique dates);
  dates' ← getitem "Acquisition Week" sorted;
  let weeked := add_week_number unique_dates dates' sorted in
  select (final_columns weeked) weeked.

Definition row_count (df : DataFrame) : nat := length (rows df).

(** A cell that holds a date. *)
Definition is_date (v : value) : Prop := ∃ d, v = VDate d.

(** The intermediate tables of [analyse], for stating its properties. *)
Definition sort_keys : list string := ["Acquisition Week"; "OS"].

Definition combined (inputs : list (string * DataFrame)) : DataFrame :=
  concat_frames (tag <$> inputs).

Definition sorted_rows (inputs : list (string * DataFrame))
  : list (gmap string value) :=
  stable_sort (row_leb sort_keys) (rows (combined inputs)).

Definition dates_of (inputs : list (string * DataFrame)) : list value :=
  unique ((λ r, cell r "Acquisition Week") <$> sorted_rows inputs).

Definition week_label (i : nat) : string := "Week " +:+ pretty (i + 1)%nat.

Definition week_of (unique_dates : list value) (r : gmap string value) : value :=
  match dict_get (week_map unique_dates) (cell r "Acquisition Week") with
  | Some w => VStr w
  | None => VMissing
  end.

Definition weeked_columns (inputs : list (string * DataFrame)) : list string :=
  add_label "Week Number" (columns (combined inputs)).

Definition finish (inputs : list (string * DataFrame)) (r : gmap string value)
  : gmap string value :=
  reindex (weeked_columns inputs)
    (filter (λ col, col ∈ weeked_columns inputs) target_columns)
    (<["Week Number" := week_of (dates_of inputs) r]> r).

Definition final_frame (inputs : list (string * DataFrame)) : DataFrame :=
  {| columns := filter (λ col, col ∈ weeked_columns inputs) target_columns;
     rows := finish inputs <$> sorted_rows inputs |}.

(** The cell a row of a dataset has in the combined table. *)
Definition origin_cell (input : string * DataFrame) (r : gmap string value)
    (c : string) : value :=
  if decide (c = "OS") then VStr input.1
  else if decide (c ∈ columns input.2) then cell r c else VMissing.

Definition combine_row (inputs : list (string * DataFrame))
    (input : string * DataFrame) (r : gmap string value) : gmap string value :=
  reindex (columns (tag input)) (columns (combined inputs)) (<["OS" := VStr input.1]> r).

(** ** Vocabulary of the specification *)

(** A call that returns a frame: the reference it returns names [out]
    in the heap it leaves. *)
Definition returns (d : list (string * loc)) (st : state) (out : DataFrame)
  : Prop :=
  ∃ df_final st',
    run_flexible_cohort_analysis d st = (Ok (RFrame df_final), st')
    ∧ heap st' !! df_final = Some out.

(** A dataset with the required column: an [Acquisition Week] column
    whose cells are dates. *)
Definition dated (df : DataFrame) : Prop :=
  "Acquisition Week" ∈ columns df
  ∧ Forall (λ r, is_date (cell r "Acquisition Week")) (rows df).

(** The columns present in the combined table: those of the datasets
    and the two the pipeline adds. *)
Definition present (inputs : list (string * DataFrame)) (c : string) : Prop :=
  c = "Week Number" ∨ c = "OS" ∨ Exists (λ input, c ∈ columns input.2) inputs.

#[global] Instance present_dec inputs c : Decision (present inputs c).
Proof. unfold present. apply _. Defined.

(** The allow-list as the specification words it. *)
Definition spec_allow_list : list string :=
  ["Acquisition Week"; "Week Number"; "OS";
   "Total Subscriptions"; "Total Unsubscriptions"; "Subs Remaining";
   "Payout Total"; "Total Gross"; "Margin";
   "Week 8"; "Week 12"; "Week 16"; "Week 20";
   "Week 24"; "Week 28"; "Week 32"; "Week 36"; "Week 40"].

(** The rows of the datasets with the dataset each comes from, in the
    order of the dict and, within a dataset, of its rows: the order of
    the concatenated table before it is sorted. *)
Definition origins_of (inputs : list (string * DataFrame))
  : list ((string * DataFrame) * gmap string value) :=
  inputs ≫= (λ input, (λ r, (input, r)) <$> rows input.2).

Definition origin_key (o : (string * DataFrame) * gmap string value)
  : list value :=
  origin_cell o.1 o.2 <$> sort_keys.

(** The [Acquisition Week] cells of the rows of the datasets, in the
    order of the concatenated table; the cell of a row whose dataset
    lacks the column is missing. *)
Definition week_cells (inputs : list (string * DataFrame)) : list value :=
  (λ o, origin_cell o.1 o.2 "Acquisition Week") <$> origins_of inputs.

Definition is_num (v : value) : Prop := ∃ n, v = VNum n.

Definition is_str (v : value) : Prop := ∃ s, v = VStr s.

(** Cells that pandas and Python can put in order: dates, some of which
    may be missing; or numbers, some of which may be missing; or
    strings, none of which is missing. *)
Definition orderable (l : list value) : Prop :=
  Forall (λ v, is_date v ∨ v = VMissing) l
  ∨ Forall (λ v, is_num v ∨ v = VMissing) l
  ∨ Forall is_str l.

(** ** Sample data *)

Definition row_of (cells : list (string * value)) : gmap string value :=
  list_to_map cells.

Definition sample_android : DataFrame :=
  {| columns := ["Acquisition Week"; "OS"; "Week 8"; "Payout Total (€)"; "Notes"];
     rows := [row_of [("Acquisition Week", VDate 20240108); ("OS", VStr "legacy");
                      ("Week 8", VNum 100); ("Payout Total (€)", VNum 7);
                      ("Notes", VStr "n1")];
              row_of [("Acquisition Week", VDate 20240101); ("OS", VStr "legacy");
                      ("Week 8", VNum 90); ("Payout Total (€)", VNum 5);
                      ("Notes", VMissing)]] |}.

Definition sample_ios : DataFrame :=
  {| columns := ["Acquisition Week"; "Margin"; "Payout Total"];
     rows := [row_of [("Acquisition Week", VDate 20240101); ("Margin", VNum 3);
                      ("Payout Total", VNum 11)];
              row_of [("Acquisition Week", VDate 20240115); ("Margin", VNum 4);
                      ("Payout Total", VNum 12)];
              row_of [("Acquisition Week", VDate 20240101); ("Margin", VNum 5);
                      ("Payout Total", VNum 13)]] |}.

(** A dataset without the [Acquisition Week] column. *)
Definition sample_undated : DataFrame :=
  {| columns := ["Week 8"; "Margin"];
     rows := [row_of [("Week 8", VNum 100); ("Margin", VNum 3)]] |}.

Definition sample_state : state :=
  {| heap := [sample_android; sample_ios; sample_undated]; output := [] |}.

Definition sample_dict : list (string * loc) :=
  [("iOS", 1%nat); ("Android", 0%nat)].

Definition sample_inputs : list (string * DataFrame) :=
  [("iOS", sample_ios); ("Android", sample_android)].

Definition sample_out : DataFrame := final_frame sample_inputs.

(** The row of a dataset with its label, on the columns of the tagged
    dataset: its cells are [origin_cell]. *)
Definition origin_row (o : (string * DataFrame) * gmap string value)
  : gmap string value :=
  reindex (columns (tag o.1)) (columns (tag o.1)) (<["OS" := VStr o.1.1]> o.2).

Definition origin_leb (o1 o2 : (string * DataFrame) * gmap string value) : bool :=
  row_leb sort_keys (origin_row o1) (origin_row o2).

(** The rows of the datasets in the order the sort puts them in. *)
Definition sorted_origins (inputs : list (string * DataFrame))
  : list ((string * DataFrame) * gmap string value) :=
  stable_sort origin_leb (origins_of inputs).

(** The order of the sort keys: by [Acquisition Week], then by [OS]. *)
Definition key_le (r1 r2 : gmap string value) : Prop :=
  value_lt (cell r1 "Acquisition Week") (cell r2 "Acquisition Week")
  ∨ (cell r1 "Acquisition Week" = cell r2 "Acquisition Week"
     ∧ (value_lt (cell r1 "OS") (cell r2 "OS")
        ∨ cell r1 "OS" = cell r2 "OS")).

(** The rows of the sample table with the two rows of iOS of the first
    date, which tie on the sort keys, exchanged. *)
Definition sample_rows_exchanged : list (gmap string value) :=
  match rows sample_out with
  | r0 :: r1 :: r2 :: l => r0 :: r2 :: r1 :: l
  | l => l
  end.

(** ** Caller-owned objects

    [keeps h0 m Q]: run from a heap that extends [h0], the computation
    [m] leaves a heap that extends [h0], so every object of [h0] is as
    it was, and a value it returns satisfies [Q].  A reference is
    [fresh] for [h0] when it names no object of [h0]. *)
Definition keeps {A} (h0 : list DataFrame) (m : M A) (Q : A → Prop) : Prop :=
  ∀ st, h0 `prefix_of` heap st →
        h0 `prefix_of` heap (m st).2 ∧ ∀ a, (m st).1 = Ok a → Q a.

Definition fresh (h0 : list DataFrame) (l : loc) : Prop := (length h0 ≤ l)%nat.

(** ** Merging separately

    The row a dataset's row becomes when its dataset is merged alone
    and the result is concatenated into a table of columns [cols]. *)
Definition separate_row (cols : list string)
    (o : (string * DataFrame) * gmap string value) : gmap string value :=
  reindex (columns (final_frame [o.1])) cols
    (finish [o.1] (combine_row [o.1] o.1 o.2)).

(** Concatenating two merged tables and sorting the result again. *)
Definition remerge (ta tb : DataFrame) : res DataFrame :=
  sort_values sort_keys (concat_frames [ta; tb]).

Definition sample_out_ios : DataFrame := final_frame [("iOS", sample_ios)].

Definition sample_out_android : DataFrame :=
  final_frame [("Android", sample_android)].

(** ** Step 2 on frames

    What the second step of [run_flexible_cohort_analysis] creates and
    emits for the table [df_final]: the long table and the figure that
    is shown, or the line that is printed. *)
Definition cols_to_melt (df_final : DataFrame) : list string :=
  filter (λ col, col ∈ columns df_final) weeks_of_interest.

Definition box_figure (df_long : DataFrame) : Figure :=
  update_layout_boxmode "group"
    {| fig_data := df_long; fig_x := "Cohort_Period"; fig_y := "Value (€)";
       fig_color := "OS"; fig_points := "all";
       fig_title := "Cohort Performance Distribution (Multi-Source Comparison)";
       fig_category_orders := [("Cohort_Period", weeks_of_interest)];
       fig_boxmode := None |}.

Definition no_weeks_warning : string :=
  "Warning: No columns found for the requested weeks (Week 8, 12, etc.) in the data.".

Definition chart (df_final : DataFrame) : res (list DataFrame * event) :=
  if bool_decide (cols_to_melt df_final ≠ []) then
    df_long ← melt ["OS"] (cols_to_melt df_final) "Cohort_Period" "Value (€)"
                df_final;
    Ok ([df_long], Shown (box_figure df_long))
  else Ok ([], Printed no_weeks_warning).

(** The sorted table with its week numbers. *)
Definition weeked_frame (inputs : list (string * DataFrame)) : DataFrame :=
  {| columns := weeked_columns inputs;
     rows := (λ r, <["Week Number" := week_of (dates_of inputs) r]> r)
             <$> sorted_rows inputs |}.

(** The long record of a row for a checkpoint column. *)
Definition long_record (c : string) (r : gmap string value)
  : gmap string value :=
  <["Value (€)" := cell r c]>
    (<["Cohort_Period" := VStr c]> ({["OS" := cell r "OS"]})).

(** The checkpoint columns that some dataset has, in the fixed order. *)
Definition checkpoints_present (inputs : list (string * DataFrame))
  : list string :=
  filter (λ c, Exists (λ input, c ∈ columns input.2) inputs) weeks_of_interest.

(** Sample data with the dates as strings, and a mapping of two
    datasets whose dates are of two kinds. *)
Definition sample_text : DataFrame :=
  {| columns := ["Acquisition Week"; "Week 8"];
     rows := [row_of [("Acquisition Week", VStr "2024-01-08"); ("Week 8", VNum 1)];
              row_of [("Acquisition Week", VStr "2024-01-01"); ("Week 8", VNum 2)]] |}.

Definition sample_state2 : state :=
  {| heap := [sample_android; sample_text; sample_undated]; output := [] |}.

Definition sample_long : DataFrame :=
  match melt ["OS"] (cols_to_melt sample_out) "Cohort_Period" "Value (€)"
          sample_out with
  | Ok df_long => df_long
  | _ => {| columns := []; rows := [] |}
  end.

(** A mapping in which one dataset has no dates. *)
Definition sample_partial_inputs : list (string * DataFrame) :=
  [("Android", sample_android); ("Web", sample_undated)].

Definition sample_out_partial : DataFrame := final_frame sample_partial_inputs.
(** * Properties *)

(** ** The order on cells *)

Lemma str_compare_refl s : String_as_OT.compare s s = Eq.
Proof.
  destruct (String_as_OT.compare_spec s s) as [_|H|H]; [done| |];
    by apply (irreflexivity String_as_OT.lt) in H.
Qed.

Lemma str_compare_eq s t : String_as_OT.compare s t = Eq → s = t.
Proof.
  intros H. destruct (String_as_OT.compare_spec s t); congruence.
Qed.

Lemma str_compare_antisym s t :
  String_as_OT.compare t s = CompOpp (String_as_OT.compare s t).
Proof.
  destruct (String_as_OT.compare_spec s t) as [->|H|H]; simpl.
  - apply str_compare_refl.
  - destruct (String_as_OT.compare_spec t s) as [->|H'|H']; [|  |done].
    + by apply (irreflexivity String_as_OT.lt) in H.
    + destruct (irreflexivity String_as_OT.lt s). by etrans.
  - exact H.
Qed.

Lemma str_compare_trans s t u :
  String_as_OT.compare s t = Lt → String_as_OT.compare t u = Lt →
  String_as_OT.compare s u = Lt.
Proof. apply (transitivity (R := String_as_OT.lt)). Qed.

Lemma value_compare_refl a : value_compare a a = Eq.
Proof.
  destruct a; simpl; auto using Z.compare_refl, str_compare_refl.
Qed.

Lemma value_compare_eq a b : value_compare a b = Eq → a = b.
Proof.
  destruct a, b; simpl; try discriminate; intros H;
    try (apply Z.compare_eq in H); try (apply str_compare_eq in H);
    congruence.
Qed.

Lemma value_compare_antisym a b :
  value_compare b a = CompOpp (value_compare a b).
Proof.
  destruct a, b; simpl; auto using Z.compare_antisym, str_compare_antisym.
Qed.

Lemma value_compare_trans a b c :
  value_compare a b = Lt → value_compare b c = Lt → value_compare a c = Lt.
Proof.
  destruct a, b, c; simpl; try discriminate; try done;
    try (rewrite !Z.compare_lt_iff; lia);
    apply str_compare_trans.
Qed.

Lemma value_ltb_lt a b : value_ltb a b = true ↔ value_lt a b.
Proof. unfold value_ltb, value_lt. by destruct (value_compare a b). Qed.

Lemma value_lt_irrefl a : ¬ value_lt a a.
Proof. unfold value_lt. by rewrite value_compare_refl. Qed.

Lemma value_lt_asym a b : value_lt a b → ¬ value_lt b a.
Proof.
  unfold value_lt. intros H. rewrite value_compare_antisym, H. done.
Qed.

(** ** The order on rows *)

Lemma lex_compare_refl keys r : lex_compare keys r r = Eq.
Proof.
  induction keys as [|c keys IH]; simpl; [done|].
  by rewrite value_compare_refl.
Qed.

Lemma lex_compare_antisym keys r1 r2 :
  lex_compare keys r2 r1 = CompOpp (lex_compare keys r1 r2).
Proof.
  induction keys as [|c keys IH]; simpl; [done|].
  rewrite (value_compare_antisym (cell r1 c) (cell r2 c)).
  by destruct (value_compare (cell r1 c) (cell r2 c)).
Qed.

Lemma lex_compare_eq keys r1 r2 :
  lex_compare keys r1 r2 = Eq ↔ map (cell r1) keys = map (cell r2) keys.
Proof.
  induction keys as [|c keys IH]; simpl; [done|].
  destruct (value_compare (cell r1 c) (cell r2 c)) eqn:E.
  - apply value_compare_eq in E. rewrite IH, E.
    split; [congruence|]. by intros [= ?].
  - split; [done|]. intros [= E' _]. rewrite E', value_compare_refl in E. done.
  - split; [done|]. intros [= E' _]. rewrite E', value_compare_refl in E. done.
Qed.

Lemma lex_compare_trans keys r1 r2 r3 :
  lex_compare keys r1 r2 ≠ Gt → lex_compare keys r2 r3 ≠ Gt →
  lex_compare keys r1 r3 ≠ Gt.
Proof.
  induction keys as [|c keys IH]; simpl; [done|].
  destruct (value_compare (cell r1 c) (cell r2 c)) eqn:E12;
    destruct (value_compare (cell r2 c) (cell r3 c)) eqn:E23; try done.
  - apply value_compare_eq in E12, E23. rewrite E12, E23, value_compare_refl.
    apply IH.
  - apply value_compare_eq in E12. rewrite E12, E23. done.
  - apply value_compare_eq in E23. rewrite <- E23, E12. done.
  - rewrite (value_compare_trans _ _ _ E12 E23). done.
Qed.

Lemma row_leb_total keys r1 r2 :
  row_leb keys r1 r2 = true ∨ row_leb keys r2 r1 = true.
Proof.
  unfold row_leb. rewrite (lex_compare_antisym keys r1 r2).
  destruct (lex_compare keys r1 r2); simpl; auto.
Qed.

Lemma row_leb_trans keys r1 r2 r3 :
  row_leb keys r1 r2 = true → row_leb keys r2 r3 = true →
  row_leb keys r1 r3 = true.
Proof.
  unfold row_leb. intros H1 H2.
  pose proof (lex_compare_trans keys r1 r2 r3) as H.
  destruct (lex_compare keys r1 r2), (lex_compare keys r2 r3),
    (lex_compare keys r1 r3); try done; by destruct H.
Qed.

Lemma row_leb_tie keys r1 r2 :
  map (cell r1) keys = map (cell r2) keys → row_leb keys r1 r2 = true.
Proof.
  intros H. apply lex_compare_eq in H. unfold row_leb. by rewrite H.
Qed.

Lemma row_leb_antisym keys r1 r2 :
  row_leb keys r1 r2 = true → row_leb keys r2 r1 = true →
  map (cell r1) keys = map (cell r2) keys.
Proof.
  unfold row_leb. rewrite (lex_compare_antisym keys r1 r2). intros H1 H2.
  apply lex_compare_eq. by destruct (lex_compare keys r1 r2).
Qed.

(** ** Stable sorting *)

Section StableSortFacts.
Context {A K : Type} `{EqDecision K} (leb : A → A → bool) (key : A → K).
Hypothesis leb_total : ∀ x y, leb x y = true ∨ leb y x = true.
Hypothesis leb_trans : ∀ x y z, leb x y = true → leb y z = true → leb x z = true.
Hypothesis leb_tie : ∀ x y, key x = key y → leb x y = true.
Hypothesis leb_antisym : ∀ x y, leb x y = true → leb y x = true → key x = key y.

Lemma insert_sorted_perm x l : insert_sorted leb x l ≡ₚ x :: l.
Proof.
  induction l as [|y l IH]; simpl; [done|].
  destruct (leb x y); [done|]. rewrite IH. apply Permutation_swap.
Qed.

Lemma stable_sort_perm l : stable_sort leb l ≡ₚ l.
Proof.
  induction l as [|x l IH]; simpl; [done|].
  by rewrite insert_sorted_perm, IH.
Qed.

Lemma stable_sort_length l : length (stable_sort leb l) = length l.
Proof. by rewrite stable_sort_perm. Qed.

Lemma insert_sorted_strongly x l :
  StronglySorted (λ a b, leb a b = true) l →
  StronglySorted (λ a b, leb a b = true) (insert_sorted leb x l).
Proof.
  induction 1 as [|y l Hl IH Hy]; simpl.
  - repeat constructor.
  - destruct (leb x y) eqn:E.
    + constructor; [by constructor|]. constructor; [done|].
      eapply Forall_impl; [exact Hy|]. intros z Hz. by eapply leb_trans.
    + constructor; [done|]. rewrite insert_sorted_perm.
      constructor; [|done]. destruct (leb_total x y); congruence.
Qed.

Lemma stable_sort_strongly l :
  StronglySorted (λ a b, leb a b = true) (stable_sort leb l).
Proof.
  induction l; simpl; [constructor|]. by apply insert_sorted_strongly.
Qed.

(** Stability: the elements of one key stand in the order they had. *)
Lemma insert_sorted_stable k x l :
  filter (λ a, key a = k) (insert_sorted leb x l)
  = filter (λ a, key a = k) (x :: l).
Proof.
  induction l as [|y l IH]; simpl; [done|].
  destruct (leb x y) eqn:E; [done|].
  rewrite filter_cons, IH, !filter_cons.
  destruct (decide (key y = k)) as [Hy|Hy], (decide (key x = k)) as [Hx|Hx];
    try done.
  rewrite leb_tie in E by congruence. done.
Qed.

Lemma stable_sort_stable k l :
  filter (λ a, key a = k) (stable_sort leb l) = filter (λ a, key a = k) l.
Proof.
  induction l as [|x l IH]; simpl; [done|].
  by rewrite insert_sorted_stable, !filter_cons, IH.
Qed.

(** A sorted list is determined by the order within each key. *)
Lemma sorted_stable_unique l1 l2 :
  StronglySorted (λ a b, leb a b = true) l1 →
  StronglySorted (λ a b, leb a b = true) l2 →
  (∀ k, filter (λ a, key a = k) l1 = filter (λ a, key a = k) l2) →
  l1 = l2.
Proof.
  intros H1. revert l2. induction H1 as [|x l1 Hl1 IH Hx]; intros l2 H2 Hf.
  - destruct l2 as [|y l2]; [done|].
    specialize (Hf (key y)). rewrite filter_cons_True in Hf by done. done.
  - destruct H2 as [|y l2 Hl2 Hy].
    { specialize (Hf (key x)). rewrite filter_cons_True in Hf by done. done. }
    assert (x ∈ y :: l2) as Hxin.
    { eapply (list_elem_of_filter (λ a, key a = key x)).
      rewrite <- Hf, filter_cons_True by done. left. }
    assert (y ∈ x :: l1) as Hyin.
    { eapply (list_elem_of_filter (λ a, key a = key y)).
      rewrite Hf, filter_cons_True by done. left. }
    assert (key x = key y) as Hk.
    { apply elem_of_cons in Hxin as [->|Hxin]; [done|].
      apply elem_of_cons in Hyin as [->|Hyin]; [done|].
      rewrite Forall_forall in Hx, Hy. apply leb_antisym; auto. }
    pose proof (Hf (key x)) as Hfx.
    rewrite filter_cons_True in Hfx by done.
    rewrite filter_cons_True in Hfx by done.
    injection Hfx as -> Hfx. f_equal. apply IH; [done|].
    intros k. specialize (Hf k). rewrite !filter_cons in Hf.
    destruct (decide (key y = k)); congruence.
Qed.

(** Sorting the parts first does not change the result. *)
Lemma stable_sort_app_sorted l1 l2 :
  stable_sort leb (stable_sort leb l1 ++ stable_sort leb l2)
  = stable_sort leb (l1 ++ l2).
Proof.
  apply sorted_stable_unique; [apply stable_sort_strongly..|].
  intros k. by rewrite !stable_sort_stable, !filter_app, !stable_sort_stable.
Qed.
End StableSortFacts.

(** ** Distinct elements *)

Section Unique.
Context {A : Type} `{EqDecision A}.

Lemma elem_of_unique (x : A) l : x ∈ unique l ↔ x ∈ l.
Proof.
  induction l as [|y l IH]; simpl; [done|].
  rewrite !elem_of_cons, list_elem_of_filter, IH.
  destruct (decide (x = y)); tauto.
Qed.

Lemma NoDup_unique (l : list A) : NoDup (unique l).
Proof.
  induction l as [|y l IH]; simpl; constructor.
  - rewrite list_elem_of_filter. tauto.
  - by apply NoDup_filter.
Qed.

Lemma StronglySorted_filter_2 (R : A → A → Prop) (P : A → Prop)
    `{∀ x, Decision (P x)} l :
  StronglySorted R l → StronglySorted R (filter P l).
Proof.
  induction 1 as [|x l Hl IH Hx]; [constructor|].
  rewrite filter_cons. destruct (decide (P x)); [|done].
  constructor; [done|]. apply Forall_forall.
  intros y [_ Hy]%list_elem_of_filter. rewrite Forall_forall in Hx. auto.
Qed.

(** The distinct elements of an ascending list ascend strictly. *)
Lemma unique_strongly (R : A → A → Prop) l :
  StronglySorted R l →
  StronglySorted (λ a b, R a b ∧ a ≠ b) (unique l).
Proof.
  induction 1 as [|x l Hl IH Hx]; simpl; [constructor|].
  constructor; [by apply StronglySorted_filter_2|].
  apply Forall_forall. intros y [Hy Hin]%list_elem_of_filter.
  apply (proj1 (elem_of_unique _ _)) in Hin.
  rewrite Forall_forall in Hx. split; [auto|congruence].
Qed.
End Unique.

(** ** [sorted] on an ascending list *)

Lemma py_lt_true a b : py_lt a b = Ok true → value_lt a b.
Proof.
  unfold value_lt.
  destruct a, b; simpl; try discriminate; intros [= H].
  - by apply Z.ltb_lt in H.
  - by apply Z.ltb_lt in H.
  - by destruct (String_as_OT.compare s s0).
Qed.

Lemma py_lt_total a b :
  (∃ b', py_lt a b = Ok b') ∨ py_lt a b = Raise TypeError.
Proof. destruct a, b; simpl; eauto. Qed.

Lemma py_insert_ascending x l :
  Forall (value_lt x) l →
  py_insert x l = Ok (x :: l) ∨ py_insert x l = Raise TypeError.
Proof.
  destruct l as [|y l]; simpl; [auto|]. intros [Hy _]%Forall_cons.
  destruct (py_lt y x) as [[]| |] eqn:E; simpl; auto.
  - apply py_lt_true in E. by destruct (value_lt_asym _ _ Hy).
  - destruct (py_lt_total y x) as [[b' H]|H]; rewrite H in E;
      [discriminate|injection E as <-; auto].
  - destruct (py_lt_total y x) as [[b' H]|H]; rewrite H in E; discriminate.
Qed.

Lemma py_sorted_ascending l :
  StronglySorted value_lt l →
  py_sorted l = Ok l ∨ py_sorted l = Raise TypeError.
Proof.
  induction 1 as [|x l Hl IH Hx]; simpl; [auto|].
  destruct IH as [-> | ->]; simpl; [|auto].
  by apply py_insert_ascending.
Qed.

Lemma py_sorted_dates l :
  Forall is_date l → StronglySorted value_lt l → py_sorted l = Ok l.
Proof.
  intros Hd Hs. induction Hs as [|x l Hl IH Hx]; simpl; [done|].
  apply Forall_cons in Hd as [[d ->] Hd]. rewrite (IH Hd). simpl.
  destruct l as [|y l]; simpl; [done|].
  apply Forall_cons in Hd as [[d' ->] _]. apply Forall_cons in Hx as [Hx _].
  simpl. unfold value_lt in Hx. simpl in Hx.
  rewrite Z.compare_lt_iff in Hx.
  destruct (Z.ltb_spec d' d); [lia|done].
Qed.

(** ** Cells of rebuilt rows *)

Lemma lookup_reindex own cols r c :
  reindex own cols r !! c
  = if decide (c ∈ cols)
    then Some (if decide (c ∈ own) then cell r c else VMissing)
    else None.
Proof.
  unfold reindex. induction cols as [|c' cols IH].
  - simpl. by rewrite lookup_empty.
  - rewrite fmap_cons, list_to_map_cons, lookup_insert.
    destruct (decide (c' = c)) as [->|Hne].
    + by rewrite (decide_True (P := c ∈ c :: cols)) by left.
    + rewrite IH. destruct (decide (c ∈ cols)).
      * by rewrite (decide_True (P := c ∈ c' :: cols)) by (by right).
      * rewrite (decide_False (P := c ∈ c' :: cols)); [done|].
        rewrite elem_of_cons. intros [?|?]; congruence.
Qed.

Lemma cell_reindex own cols r c :
  cell (reindex own cols r) c
  = if decide (c ∈ cols)
    then if decide (c ∈ own) then cell r c else VMissing
    else VMissing.
Proof. unfold cell at 1. rewrite lookup_reindex. by destruct (decide _). Qed.

Lemma cell_insert c v r c' :
  cell (<[c := v]> r) c' = if decide (c = c') then v else cell r c'.
Proof. unfold cell. rewrite lookup_insert. by destruct (decide _). Qed.

Lemma elem_of_add_label c c' cols :
  c' ∈ add_label c cols ↔ c' = c ∨ c' ∈ cols.
Proof.
  unfold add_label. destruct (decide (c ∈ cols)).
  - split; [auto|]. by intros [->|].
  - rewrite elem_of_app, list_elem_of_singleton. tauto.
Qed.

(** ** The combined table *)

Lemma columns_combined inputs c :
  c ∈ columns (combined inputs)
  ↔ ∃ input, input ∈ inputs ∧ (c = "OS" ∨ c ∈ columns input.2).
Proof.
  unfold combined, concat_frames. simpl.
  rewrite elem_of_unique, list_elem_of_join. split.
  - intros (cols & Hc & Hcols). apply list_elem_of_fmap in Hcols as (df & -> & Hdf).
    apply list_elem_of_fmap in Hdf as (input & -> & Hin).
    exists input. split; [done|]. by apply elem_of_add_label.
  - intros (input & Hin & Hc). exists (columns (tag input)). split.
    + by apply elem_of_add_label.
    + apply list_elem_of_fmap. exists (tag input). split; [done|].
      apply list_elem_of_fmap. eauto.
Qed.

Lemma OS_in_combined inputs :
  inputs ≠ [] → "OS" ∈ columns (combined inputs).
Proof.
  destruct inputs as [|input inputs]; [done|]. intros _.
  apply columns_combined. exists input. split; [left|auto].
Qed.

Lemma rows_combined inputs :
  rows (combined inputs)
  = inputs ≫= (λ input, combine_row inputs input <$> rows input.2).
Proof.
  unfold combined at 1, concat_frames. cbn [rows].
  rewrite list_fmap_bind. apply list_bind_ext; [|done]. intros input.
  simpl. rewrite <- list_fmap_compose. done.
Qed.

Lemma cell_combine_row inputs input r c :
  input ∈ inputs →
  cell (combine_row inputs input r) c = origin_cell input r c.
Proof.
  intros Hin. unfold combine_row, origin_cell.
  rewrite cell_reindex, cell_insert.
  destruct (decide (c = "OS")) as [->|Hne].
  - rewrite (decide_True (P := "OS" ∈ columns (combined inputs)))
      by (apply columns_combined; eauto).
    assert ("OS" ∈ columns (tag input)) by (apply elem_of_add_label; auto).
    by rewrite !decide_True.
  - rewrite (decide_False (P := "OS" = c)) by done.
    destruct (decide (c ∈ columns input.2)) as [Hc|Hc].
    + rewrite (decide_True (P := c ∈ columns (combined inputs)))
        by (apply columns_combined; eauto).
      assert (c ∈ columns (tag input)) by (apply elem_of_add_label; auto).
      by rewrite decide_True.
    + destruct (decide (c ∈ columns (combined inputs))); [|done].
      assert (c ∉ columns (tag input)).
      { unfold tag. simpl. rewrite elem_of_add_label. tauto. }
      by rewrite decide_False.
Qed.

Lemma length_rows_combined inputs :
  length (rows (combined inputs)) = sum_list_with (λ input, row_count input.2) inputs.
Proof.
  rewrite rows_combined. generalize (combine_row inputs). intros f.
  induction inputs as [|input inputs IH]; [done|].
  rewrite bind_cons, length_app, length_fmap. simpl. by rewrite IH.
Qed.

Lemma column_OS_combined inputs :
  Forall (λ v, ∃ s, v = VStr s) (column "OS" (combined inputs)).
Proof.
  unfold column. rewrite rows_combined. apply Forall_forall. intros v Hv.
  apply list_elem_of_fmap in Hv as (r & -> & Hr).
  apply list_elem_of_bind in Hr as (input & Hr & Hin).
  apply list_elem_of_fmap in Hr as (r0 & -> & _).
  rewrite cell_combine_row by done. unfold origin_cell.
  rewrite decide_True by done. eauto.
Qed.

Lemma homogeneous_strings l :
  Forall (λ v, ∃ s, v = VStr s) l → homogeneous l = true.
Proof.
  induction 1 as [|v l [s ->] Hl IH]; simpl; [done|].
  rewrite IH, andb_true_r. apply forallb_forall. intros v Hv.
  rewrite Forall_forall in Hl.
  destruct (Hl v) as [s' ->]; [by apply list_elem_of_In|done].
Qed.

(** ** The sorted table and its dates *)

Lemma StronglySorted_weaken {A} (R1 R2 : A → A → Prop) l :
  (∀ x y, R1 x y → R2 x y) → StronglySorted R1 l → StronglySorted R2 l.
Proof.
  intros HR. induction 1 as [|x l Hl IH Hx]; constructor; [done|].
  eapply Forall_impl; [exact Hx|]. auto.
Qed.

Lemma row_leb_first c keys r1 r2 :
  row_leb (c :: keys) r1 r2 = true →
  value_compare (cell r1 c) (cell r2 c) ≠ Gt.
Proof.
  unfold row_leb. simpl.
  by destruct (value_compare (cell r1 c) (cell r2 c)).
Qed.

Lemma sorted_rows_perm inputs : sorted_rows inputs ≡ₚ rows (combined inputs).
Proof. apply stable_sort_perm. Qed.

Lemma sorted_rows_strongly inputs :
  StronglySorted (λ a b, row_leb sort_keys a b = true) (sorted_rows inputs).
Proof.
  apply stable_sort_strongly; [apply row_leb_total|apply row_leb_trans].
Qed.

Lemma dates_of_ascending inputs : StronglySorted value_lt (dates_of inputs).
Proof.
  unfold dates_of.
  eapply StronglySorted_weaken;
    [|apply (unique_strongly (λ a b, value_compare a b ≠ Gt))].
  - intros a b [Hle Hne]. unfold value_lt.
    destruct (value_compare a b) eqn:E; [|done|done].
    by apply value_compare_eq in E.
  - eapply StronglySorted_fmap; [|apply sorted_rows_strongly].
    intros r1 r2. apply row_leb_first.
Qed.

Lemma py_sorted_dates_of inputs :
  py_sorted (dates_of inputs) = Ok (dates_of inputs)
  ∨ py_sorted (dates_of inputs) = Raise TypeError.
Proof. apply py_sorted_ascending, dates_of_ascending. Qed.

(** ** What [analyse] computes *)

Lemma set_series_map (g : value → value) c c' df :
  rows (set_series c (g <$> column c' df) df)
  = (λ r, <[c := g (cell r c')]> r) <$> rows df.
Proof.
  unfold set_series, column. cbn [rows].
  rewrite <- list_fmap_compose, zip_with_fmap_r, zip_with_diag. done.
Qed.

Lemma select_filter (cols : list string) df :
  select (filter (λ c, c ∈ columns df) cols) df
  = Ok {| columns := filter (λ c, c ∈ columns df) cols;
          rows := reindex (columns df) (filter (λ c, c ∈ columns df) cols)
                  <$> rows df |}.
Proof.
  unfold select.
  destruct (list_find _ _) as [[i c]|] eqn:E; [|done].
  apply list_find_Some in E as (Hi & Hc & _).
  apply list_elem_of_lookup_2, list_elem_of_filter in Hi. tauto.
Qed.

Lemma sort_values_combined inputs :
  inputs ≠ [] →
  sort_values sort_keys (combined inputs) =
    if decide ("Acquisition Week" ∈ columns (combined inputs)) then
      if homogeneous (column "Acquisition Week" (combined inputs)) then
        Ok {| columns := columns (combined inputs); rows := sorted_rows inputs |}
      else Raise TypeError
    else Raise (KeyError "Acquisition Week").
Proof.
  intros Hne. unfold sort_values, sort_keys. cbn [list_find].
  destruct (decide ("Acquisition Week" ∈ columns (combined inputs))) as [HA|HA].
  2:{ by rewrite decide_True by done. }
  rewrite decide_False by tauto.
  rewrite (decide_False (P := "OS" ∉ _)) by (pose proof (OS_in_combined _ Hne); tauto).
  cbn [fmap option_fmap option_map forallb].
  rewrite (homogeneous_strings _ (column_OS_combined inputs)).
  by destruct (homogeneous (column "Acquisition Week" (combined inputs))).
Qed.

Lemma add_week_number_sorted inputs :
  add_week_number (dates_of inputs)
    ((λ r, cell r "Acquisition Week") <$> sorted_rows inputs)
    {| columns := columns (combined inputs); rows := sorted_rows inputs |}
  = {| columns := weeked_columns inputs;
       rows := (λ r, <["Week Number" := week_of (dates_of inputs) r]> r)
               <$> sorted_rows inputs |}.
Proof.
  unfold add_week_number, series_map. unfold set_series at 1. f_equal.
  apply (set_series_map
           (λ v, match dict_get (week_map (dates_of inputs)) v with
                 | Some w => VStr w
                 | None => VMissing
                 end)
           "Week Number" "Acquisition Week"
           {| columns := columns (combined inputs);
              rows := sorted_rows inputs |}).
Qed.

Lemma select_weeked inputs :
  select
    (filter (λ col, col ∈ weeked_columns inputs) target_columns)
    {| columns := weeked_columns inputs;
       rows := (λ r, <["Week Number" := week_of (dates_of inputs) r]> r)
               <$> sorted_rows inputs |}
  = Ok (final_frame inputs).
Proof.
  etrans; [apply (select_filter target_columns
                    {| columns := weeked_columns inputs; rows := _ |})|].
  unfold final_frame. cbn [columns rows]. by rewrite <- list_fmap_compose.
Qed.

Lemma analyse_eq inputs :
  inputs ≠ [] →
  analyse inputs =
    if decide ("Acquisition Week" ∈ columns (combined inputs)) then
      if homogeneous (column "Acquisition Week" (combined inputs)) then
        _ ← py_sorted (dates_of inputs); Ok (final_frame inputs)
      else Raise TypeError
    else Raise (KeyError "Acquisition Week").
Proof.
  intros Hne. unfold analyse. fold sort_keys. fold (combined inputs).
  rewrite sort_values_combined by done.
  destruct (decide ("Acquisition Week" ∈ columns (combined inputs))) as [HA|HA];
    [|done].
  destruct (homogeneous (column "Acquisition Week" (combined inputs))); [|done].
  cbn [mbind res_bind]. unfold getitem. cbn [columns].
  rewrite decide_True by done. cbn [mbind res_bind].
  change (column "Acquisition Week" _) with
    ((λ r, cell r "Acquisition Week") <$> sorted_rows inputs).
  fold (dates_of inputs).
  destruct (py_sorted_dates_of inputs) as [-> | ->]; [|done].
  cbn [mbind res_bind]. rewrite add_week_number_sorted.
  unfold final_columns. cbn [columns]. apply select_weeked.
Qed.

(** ** Sorting and functions that keep the keys *)

Section StableSortMap.
Context {A B : Type}.

Lemma insert_sorted_ext (leb1 leb2 : A → A → bool) x l :
  (∀ y, y ∈ l → leb1 x y = leb2 x y) →
  insert_sorted leb1 x l = insert_sorted leb2 x l.
Proof.
  induction l as [|y l IH]; intros H; simpl; [done|].
  rewrite <- (H y) by left. rewrite IH; [done|].
  intros z Hz. apply H. by right.
Qed.

Lemma stable_sort_ext (leb1 leb2 : A → A → bool) l :
  (∀ x y, x ∈ l → y ∈ l → leb1 x y = leb2 x y) →
  stable_sort leb1 l = stable_sort leb2 l.
Proof.
  induction l as [|x l IH]; intros H; simpl; [done|].
  rewrite IH by (intros y z Hy Hz; apply H; by right).
  apply insert_sorted_ext. intros y Hy. apply H; [left|right].
  by rewrite (stable_sort_perm leb2) in Hy.
Qed.

Lemma insert_sorted_fmap (f : A → B) (leb : B → B → bool) x l :
  insert_sorted leb (f x) (f <$> l)
  = f <$> insert_sorted (λ a b, leb (f a) (f b)) x l.
Proof.
  induction l as [|y l IH]; [done|].
  rewrite fmap_cons. cbn [insert_sorted].
  destruct (leb (f x) (f y)); [done|]. by rewrite fmap_cons, IH.
Qed.

Lemma stable_sort_fmap (f : A → B) (leb : B → B → bool) l :
  stable_sort leb (f <$> l)
  = f <$> stable_sort (λ a b, leb (f a) (f b)) l.
Proof.
  induction l as [|x l IH]; [done|].
  rewrite fmap_cons. cbn [stable_sort]. by rewrite IH, insert_sorted_fmap.
Qed.
End StableSortMap.

(** ** Rows and the datasets they come from *)

Lemma cell_origin_row o c : cell (origin_row o) c = origin_cell o.1 o.2 c.
Proof.
  unfold origin_row, origin_cell. rewrite cell_reindex, cell_insert.
  destruct (decide (c = "OS")) as [->|Hne].
  - assert ("OS" ∈ columns (tag o.1)) by (apply elem_of_add_label; auto).
    by rewrite !decide_True.
  - rewrite (decide_False (P := "OS" = c)) by done.
    destruct (decide (c ∈ columns o.1.2)).
    + assert (c ∈ columns (tag o.1)) by (apply elem_of_add_label; auto).
      by rewrite !decide_True.
    + assert (c ∉ columns (tag o.1)).
      { unfold tag. simpl. rewrite elem_of_add_label. tauto. }
      by rewrite !decide_False.
Qed.

Lemma lex_compare_cells keys r1 r1' r2 r2' :
  (∀ c, c ∈ keys → cell r1 c = cell r1' c) →
  (∀ c, c ∈ keys → cell r2 c = cell r2' c) →
  lex_compare keys r1 r2 = lex_compare keys r1' r2'.
Proof.
  induction keys as [|c keys IH]; intros H1 H2; simpl; [done|].
  rewrite (H1 c), (H2 c) by left.
  rewrite IH; [done|intros; apply H1; by right|intros; apply H2; by right].
Qed.

Lemma row_leb_cells keys r1 r1' r2 r2' :
  (∀ c, c ∈ keys → cell r1 c = cell r1' c) →
  (∀ c, c ∈ keys → cell r2 c = cell r2' c) →
  row_leb keys r1 r2 = row_leb keys r1' r2'.
Proof.
  intros H1 H2. unfold row_leb. by rewrite (lex_compare_cells _ _ r1' _ r2').
Qed.

Lemma elem_of_origins_of inputs o :
  o ∈ origins_of inputs ↔ o.1 ∈ inputs ∧ o.2 ∈ rows o.1.2.
Proof.
  unfold origins_of. rewrite list_elem_of_bind. split.
  - intros (input & Ho & Hin). apply list_elem_of_fmap in Ho as (r & -> & Hr).
    done.
  - intros [Hin Hr]. exists o.1. split; [|done].
    apply list_elem_of_fmap. exists o.2. by destruct o.
Qed.

Lemma fmap_origins_of {B} (f : (string * DataFrame) * gmap string value → B)
    inputs :
  f <$> origins_of inputs
  = inputs ≫= (λ input, (λ r, f (input, r)) <$> rows input.2).
Proof.
  unfold origins_of. induction inputs as [|input inputs IH]; [done|].
  rewrite !bind_cons, fmap_app, IH, <- list_fmap_compose. done.
Qed.

Lemma rows_combined_origins inputs :
  rows (combined inputs)
  = (λ o, combine_row inputs o.1 o.2) <$> origins_of inputs.
Proof. by rewrite rows_combined, fmap_origins_of. Qed.

Lemma origin_leb_combine_row inputs o1 o2 :
  o1.1 ∈ inputs → o2.1 ∈ inputs →
  row_leb sort_keys (combine_row inputs o1.1 o1.2) (combine_row inputs o2.1 o2.2)
  = origin_leb o1 o2.
Proof.
  intros H1 H2. unfold origin_leb. apply row_leb_cells; intros c _.
  - by rewrite cell_combine_row, cell_origin_row.
  - by rewrite cell_combine_row, cell_origin_row.
Qed.

Lemma sorted_rows_origins inputs :
  sorted_rows inputs
  = (λ o, combine_row inputs o.1 o.2) <$> sorted_origins inputs.
Proof.
  unfold sorted_rows, sorted_origins.
  rewrite rows_combined_origins, stable_sort_fmap. f_equal.
  apply stable_sort_ext. intros o1 o2 [H1 _]%elem_of_origins_of
    [H2 _]%elem_of_origins_of.
  by apply origin_leb_combine_row.
Qed.

Lemma rows_final_origins inputs :
  rows (final_frame inputs)
  = (λ o, finish inputs (combine_row inputs o.1 o.2)) <$> sorted_origins inputs.
Proof.
  unfold final_frame. cbn [rows].
  by rewrite sorted_rows_origins, <- list_fmap_compose.
Qed.

Lemma sorted_origins_perm inputs : sorted_origins inputs ≡ₚ origins_of inputs.
Proof. apply stable_sort_perm. Qed.

Lemma origin_key_cells o : origin_key o = cell (origin_row o) <$> sort_keys.
Proof.
  unfold origin_key. apply list_fmap_ext. intros i c _.
  by rewrite cell_origin_row.
Qed.

Lemma sorted_origins_stable inputs k :
  filter (λ o, origin_key o = k) (sorted_origins inputs)
  = filter (λ o, origin_key o = k) (origins_of inputs).
Proof.
  apply (stable_sort_stable origin_leb origin_key).
  intros o1 o2 H. unfold origin_leb. apply row_leb_tie.
  by rewrite <- !origin_key_cells.
Qed.

Lemma sorted_origins_strongly inputs :
  StronglySorted (λ o1 o2, origin_leb o1 o2 = true) (sorted_origins inputs).
Proof.
  apply stable_sort_strongly.
  - intros o1 o2. apply row_leb_total.
  - intros o1 o2 o3. apply row_leb_trans.
Qed.

Lemma cell_finish inputs r c :
  cell (finish inputs r) c
  = if decide (c ∈ columns (final_frame inputs))
    then if decide (c = "Week Number")
         then week_of (dates_of inputs) r
         else cell r c
    else VMissing.
Proof.
  unfold finish, final_frame. cbn [columns]. rewrite cell_reindex.
  destruct (decide (c ∈ filter _ target_columns)) as [Hc|Hc]; [|done].
  apply list_elem_of_filter in Hc as [Hc _]. rewrite decide_True by done.
  rewrite cell_insert.
  destruct (decide ("Week Number" = c)) as [<-|Hne].
  - by rewrite decide_True.
  - by rewrite decide_False by congruence.
Qed.

Lemma cell_final_origin inputs o c :
  o.1 ∈ inputs → c ∈ columns (final_frame inputs) → c ≠ "Week Number" →
  cell (finish inputs (combine_row inputs o.1 o.2)) c = origin_cell o.1 o.2 c.
Proof.
  intros Hin Hc Hne. rewrite cell_finish, decide_True, decide_False by done.
  by apply cell_combine_row.
Qed.

Lemma bind_nil {A B} (f : A → list B) : [] ≫= f = [].
Proof. done. Qed.

(** ** Kinds of the cells of a column *)

Lemma same_kind_sym a b : same_kind a b = same_kind b a.
Proof. destruct a, b; simpl; try done; apply Z.eqb_sym. Qed.

Lemma same_kind_refl a : same_kind a a = true.
Proof. by destruct a. Qed.

Lemma homogeneous_true_iff l :
  homogeneous l = true ↔ ∀ x y, x ∈ l → y ∈ l → same_kind x y = true.
Proof.
  induction l as [|z l IH]; simpl.
  - split; [|done]. intros _ x y Hx. by apply elem_of_nil in Hx.
  - rewrite andb_true_iff, IH, forallb_forall. split.
    + intros [Hz Hl] x y Hx Hy.
      apply elem_of_cons in Hx as [->|Hx]; apply elem_of_cons in Hy as [->|Hy].
      * apply same_kind_refl.
      * by apply Hz, list_elem_of_In.
      * rewrite same_kind_sym. by apply Hz, list_elem_of_In.
      * by apply Hl.
    + intros H. split.
      * intros y Hy%list_elem_of_In. apply H; [left|by right].
      * intros x y Hx Hy. apply H; by right.
Qed.

(** ** The run on the heap *)

Lemma resolve_cons h source_name df_raw d inputs :
  resolve h ((source_name, df_raw) :: d) = Some inputs →
  ∃ df inputs', h !! df_raw = Some df ∧ resolve h d = Some inputs'
                ∧ inputs = (source_name, df) :: inputs'.
Proof.
  unfold resolve. intros H. apply mapM_Some in H.
  apply Forall2_cons_inv_l in H as ([s df] & inputs' & Hx & Hd & ->).
  apply mapM_Some in Hd. destruct (h !! df_raw) as [df'|]; [|done].
  simpl in Hx. injection Hx as <- <-. eauto.
Qed.

Lemma resolve_app h ext d inputs :
  resolve h d = Some inputs → resolve (h ++ ext) d = Some inputs.
Proof.
  unfold resolve. rewrite !mapM_Some. intros H.
  eapply Forall2_impl; [exact H|]. clear H.
  intros [s l] [s' df] H. destruct (h !! l) as [df'|] eqn:E; [|done].
  by rewrite (lookup_app_l_Some _ _ _ _ E).
Qed.

Lemma resolve_length h d inputs :
  resolve h d = Some inputs → length inputs = length d.
Proof.
  unfold resolve. rewrite mapM_Some. intros H. symmetry.
  by eapply Forall2_length.
Qed.

(** One step of a run. *)
Lemma bind_Ok {A B} (m : M A) (f : A → M B) st a st' :
  m st = (Ok a, st') → (m ≫= f) st = f a st'.
Proof. intros H. unfold mbind, M_bind. by rewrite H. Qed.

Lemma bind_Raise {A B} (m : M A) (f : A → M B) st e st' :
  m st = (Raise e, st') → (m ≫= f) st = (Raise e, st').
Proof. intros H. unfold mbind, M_bind. by rewrite H. Qed.

Lemma deref_run l df h o :
  h !! l = Some df → deref l (mkState h o) = (Ok df, mkState h o).
Proof. intros H. unfold deref. simpl. by rewrite H. Qed.

Lemma df_copy_run l df h o :
  h !! l = Some df →
  df_copy l (mkState h o) = (Ok (length h), mkState (h ++ [df]) o).
Proof. intros H. unfold df_copy. by erewrite bind_Ok by by apply deref_run. Qed.

Lemma df_setitem_run l c v df h o :
  h !! l = Some df →
  df_setitem l c v (mkState h o)
  = (Ok (), mkState (<[l := set_scalar c v df]> h) o).
Proof.
  intros H. unfold df_setitem. erewrite bind_Ok by by apply deref_run.
  unfold store. simpl. by rewrite H.
Qed.

Lemma df_setitem_series_run l c s df h o :
  h !! l = Some df →
  df_setitem_series l c s (mkState h o)
  = (Ok (), mkState (<[l := set_series c s df]> h) o).
Proof.
  intros H. unfold df_setitem_series. erewrite bind_Ok by by apply deref_run.
  unfold store. simpl. by rewrite H.
Qed.

Lemma df_columns_run l df h o :
  h !! l = Some df →
  df_columns l (mkState h o) = (Ok (columns df), mkState h o).
Proof. intros H. unfold df_columns. by erewrite bind_Ok by by apply deref_run. Qed.

Lemma insert_last {A} (h : list A) x y : <[length h := y]> (h ++ [x]) = h ++ [y].
Proof. rewrite insert_app_r_alt by done. by rewrite Nat.sub_diag. Qed.

Lemma lookup_last {A} (h : list A) x : (h ++ [x]) !! length h = Some x.
Proof. by apply list_lookup_middle. Qed.

Lemma tag_loop d : ∀ processed_dfs h o inputs,
  resolve h d = Some inputs →
  for_in d
    (λ '(source_name, df_raw) processed_dfs,
       df_temp ← df_copy df_raw;
       df_setitem df_temp "OS" (VStr source_name);;
       mret (processed_dfs ++ [df_temp]))
    processed_dfs (mkState h o)
  = (Ok (processed_dfs ++ seq (length h) (length d)),
     mkState (h ++ (tag <$> inputs)) o).
Proof.
  induction d as [|[source_name df_raw] d IH]; intros acc h o inputs Hres.
  - injection Hres as <-. simpl. by rewrite !app_nil_r.
  - apply resolve_cons in Hres as (df & inputs' & Hdf & Hres & ->).
    cbn [for_in].
    erewrite bind_Ok.
    2:{ erewrite bind_Ok by (by apply df_copy_run).
        erewrite bind_Ok by (apply df_setitem_run, lookup_last).
        rewrite insert_last. reflexivity. }
    rewrite (IH _ _ _ inputs') by (by apply resolve_app).
    rewrite length_app, fmap_cons, <- !app_assoc. simpl.
    by rewrite Nat.add_1_r.
Qed.

Lemma deref_all_run ds : ∀ h ext o,
  deref_all (seq (length h) (length ds)) (mkState (h ++ ds ++ ext) o)
  = (Ok ds, mkState (h ++ ds ++ ext) o).
Proof.
  induction ds as [|df ds IH]; intros h ext o; [done|].
  cbn [length seq deref_all].
  erewrite bind_Ok by (by apply deref_run, list_lookup_middle).
  specialize (IH (h ++ [df]) ext o).
  rewrite length_app, Nat.add_1_r, <- app_assoc in IH.
  erewrite bind_Ok by exact IH. done.
Qed.

Lemma pd_concat_run ds h o :
  pd_concat (seq (length h) (length ds)) (mkState (h ++ ds) o)
  = (Ok (length (h ++ ds)), mkState ((h ++ ds) ++ [concat_frames ds]) o).
Proof.
  unfold pd_concat. pose proof (deref_all_run ds h [] o) as H.
  rewrite app_nil_r in H. by erewrite bind_Ok by exact H.
Qed.

Lemma lift_alloc_run (f : DataFrame → res DataFrame) l df h o :
  h !! l = Some df →
  (d ← deref l; d' ← lift (f d); alloc d') (mkState h o)
  = match f df with
    | Ok d' => (Ok (length h), mkState (h ++ [d']) o)
    | Raise e => (Raise e, mkState h o)
    | Fault => (Fault, mkState h o)
    end.
Proof.
  intros H. erewrite bind_Ok by by apply deref_run.
  unfold mbind, M_bind, lift. by destruct (f df).
Qed.

Lemma df_getitem_run l c df h o :
  h !! l = Some df →
  df_getitem l c (mkState h o) = (getitem c df, mkState h o).
Proof. intros H. unfold df_getitem. by erewrite bind_Ok by by apply deref_run. Qed.

Lemma lift_run {A} (r : res A) st : lift r st = (r, st).
Proof. done. Qed.

Lemma target_OS : "OS" ∈ target_columns.
Proof. unfold target_columns. set_solver. Qed.

Lemma OS_in_final inputs :
  inputs ≠ [] → "OS" ∈ columns (final_frame inputs).
Proof.
  intros Hne. unfold final_frame. cbn [columns].
  apply list_elem_of_filter. split; [|apply target_OS].
  apply elem_of_add_label. right. by apply OS_in_combined.
Qed.

Lemma melt_final inputs :
  inputs ≠ [] →
  ∃ df_long,
    melt ["OS"]
      (filter (λ col, col ∈ columns (final_frame inputs)) weeks_of_interest)
      "Cohort_Period" "Value (€)" (final_frame inputs) = Ok df_long.
Proof.
  intros Hne. unfold melt.
  destruct (list_find _ _) as [[i c]|] eqn:E; [|eauto].
  apply list_find_Some in E as (Hi & Hc & _). destruct Hc.
  apply list_elem_of_lookup_2, elem_of_app in Hi as [Hi|Hi].
  - apply list_elem_of_singleton in Hi as ->. by apply OS_in_final.
  - by apply list_elem_of_filter in Hi as [? _].
Qed.

Lemma resolve_nonempty d h inputs :
  d ≠ [] → resolve h d = Some inputs → inputs ≠ [].
Proof. intros Hd Hres ->. apply resolve_length in Hres. by destruct d. Qed.

Ltac run_prefix d inputs Hres :=
  unfold run_flexible_cohort_analysis;
  erewrite bind_Ok by (by apply tag_loop);
  rewrite bool_decide_eq_false_2 by (by destruct d);
  rewrite app_nil_l, <- (resolve_length _ _ _ Hres), <- (length_fmap tag);
  erewrite bind_Ok by apply pd_concat_run;
  fold (combined inputs); unfold df_sort_values; fold sort_keys.

Lemma run_Ok d h o inputs :
  d ≠ [] → resolve h d = Some inputs →
  "Acquisition Week" ∈ columns (combined inputs) →
  homogeneous (column "Acquisition Week" (combined inputs)) = true →
  py_sorted (dates_of inputs) = Ok (dates_of inputs) →
  ∃ df_final ext e,
    run_flexible_cohort_analysis d (mkState h o)
    = (Ok (RFrame df_final), mkState (h ++ ext) (o ++ [e]))
    ∧ (h ++ ext) !! df_final = Some (final_frame inputs).
Proof.
  intros Hd Hres HA Hh Hs. pose proof (resolve_nonempty _ _ _ Hd Hres) as Hne.
  run_prefix d inputs Hres.
  erewrite bind_Ok.
  2:{ rewrite (lift_alloc_run _ _ _ _ _ (lookup_last _ _)).
      rewrite sort_values_combined by done.
      rewrite decide_True, Hh by done. reflexivity. }
  erewrite bind_Ok.
  2:{ rewrite (df_getitem_run _ _ _ _ _ (lookup_last _ _)).
      unfold getitem. cbn [columns]. rewrite decide_True by done. reflexivity. }
  change (column "Acquisition Week" _) with
    ((λ r, cell r "Acquisition Week") <$> sorted_rows inputs).
  fold (dates_of inputs). rewrite Hs.
  erewrite bind_Ok by apply lift_run.
  erewrite bind_Ok.
  2:{ rewrite (df_getitem_run _ _ _ _ _ (lookup_last _ _)).
      unfold getitem. cbn [columns]. rewrite decide_True by done. reflexivity. }
  erewrite bind_Ok by (apply df_setitem_series_run, lookup_last).
  rewrite insert_last.
  change (column "Acquisition Week" _) with
    ((λ r, cell r "Acquisition Week") <$> sorted_rows inputs).
  fold (add_week_number (dates_of inputs)
          ((λ r, cell r "Acquisition Week") <$> sorted_rows inputs)
          {| columns := columns (combined inputs); rows := sorted_rows inputs |}).
  rewrite add_week_number_sorted.
  erewrite bind_Ok by (apply df_columns_run, lookup_last).
  cbn [columns]. unfold df_select.
  erewrite bind_Ok.
  2:{ rewrite (lift_alloc_run _ _ _ _ _ (lookup_last _ _)).
      rewrite select_weeked. reflexivity. }
  erewrite bind_Ok by (apply df_columns_run, lookup_last).
  set (h3 := (((h ++ (tag <$> inputs)) ++ [combined inputs]) ++ _)).
  assert (∃ ext3, h3 = h ++ ext3) as [ext3 Hh3].
  { unfold h3. rewrite <- !app_assoc. eauto. }
  case_bool_decide as Hm.
  - destruct (melt_final inputs Hne) as [df_long Hlong].
    unfold df_melt. erewrite bind_Ok.
    2:{ erewrite bind_Ok.
        2:{ rewrite (lift_alloc_run _ _ _ _ _ (lookup_last _ _)).
            rewrite Hlong. reflexivity. }
        erewrite bind_Ok.
        2:{ unfold px_box.
            erewrite bind_Ok by (apply deref_run, lookup_last).
            reflexivity. }
        reflexivity. }
    eexists (length h3), (ext3 ++ [final_frame inputs; df_long]), _.
    split.
    + unfold mret, M_ret. rewrite Hh3, <- !app_assoc. reflexivity.
    + rewrite app_assoc, <- Hh3. by apply list_lookup_middle.
  - erewrite bind_Ok by reflexivity.
    eexists (length h3), (ext3 ++ [final_frame inputs]), _.
    split.
    + unfold mret, M_ret. rewrite Hh3, <- !app_assoc. reflexivity.
    + rewrite app_assoc, <- Hh3. apply lookup_last.
Qed.

Lemma run_KeyError d h o inputs :
  d ≠ [] → resolve h d = Some inputs →
  "Acquisition Week" ∉ columns (combined inputs) →
  ∃ ext,
    run_flexible_cohort_analysis d (mkState h o)
    = (Raise (KeyError "Acquisition Week"), mkState (h ++ ext) o).
Proof.
  intros Hd Hres HA. pose proof (resolve_nonempty _ _ _ Hd Hres) as Hne.
  run_prefix d inputs Hres.
  erewrite bind_Raise.
  2:{ rewrite (lift_alloc_run _ _ _ _ _ (lookup_last _ _)).
      rewrite sort_values_combined by done.
      rewrite decide_False by done. reflexivity. }
  rewrite <- !app_assoc. eauto.
Qed.

Lemma run_TypeError_kinds d h o inputs :
  d ≠ [] → resolve h d = Some inputs →
  "Acquisition Week" ∈ columns (combined inputs) →
  homogeneous (column "Acquisition Week" (combined inputs)) = false →
  ∃ ext,
    run_flexible_cohort_analysis d (mkState h o)
    = (Raise TypeError, mkState (h ++ ext) o).
Proof.
  intros Hd Hres HA Hh. pose proof (resolve_nonempty _ _ _ Hd Hres) as Hne.
  run_prefix d inputs Hres.
  erewrite bind_Raise.
  2:{ rewrite (lift_alloc_run _ _ _ _ _ (lookup_last _ _)).
      rewrite sort_values_combined by done.
      rewrite decide_True, Hh by done. reflexivity. }
  rewrite <- !app_assoc. eauto.
Qed.

Lemma run_TypeError_sorted d h o inputs :
  d ≠ [] → resolve h d = Some inputs →
  "Acquisition Week" ∈ columns (combined inputs) →
  homogeneous (column "Acquisition Week" (combined inputs)) = true →
  py_sorted (dates_of inputs) = Raise TypeError →
  ∃ ext,
    run_flexible_cohort_analysis d (mkState h o)
    = (Raise TypeError, mkState (h ++ ext) o).
Proof.
  intros Hd Hres HA Hh Hs. pose proof (resolve_nonempty _ _ _ Hd Hres) as Hne.
  run_prefix d inputs Hres.
  erewrite bind_Ok.
  2:{ rewrite (lift_alloc_run _ _ _ _ _ (lookup_last _ _)).
      rewrite sort_values_combined by done.
      rewrite decide_True, Hh by done. reflexivity. }
  erewrite bind_Ok.
  2:{ rewrite (df_getitem_run _ _ _ _ _ (lookup_last _ _)).
      unfold getitem. cbn [columns]. rewrite decide_True by done. reflexivity. }
  change (column "Acquisition Week" _) with
    ((λ r, cell r "Acquisition Week") <$> sorted_rows inputs).
  fold (dates_of inputs). rewrite Hs.
  erewrite bind_Raise by apply lift_run.
  rewrite <- !app_assoc. eauto.
Qed.

(** A run that returns a frame returns [final_frame] of the datasets
    its argument names. *)
Lemma run_returns d st inputs df_final st' :
  resolve (heap st) d = Some inputs →
  run_flexible_cohort_analysis d st = (Ok (RFrame df_final), st') →
  inputs ≠ []
  ∧ "Acquisition Week" ∈ columns (combined inputs)
  ∧ homogeneous (column "Acquisition Week" (combined inputs)) = true
  ∧ py_sorted (dates_of inputs) = Ok (dates_of inputs)
  ∧ heap st' !! df_final = Some (final_frame inputs).
Proof.
  intros Hres Hrun. destruct st as [h o]. cbn [heap] in Hres.
  destruct (decide (d = [])) as [->|Hd]; [by injection Hres as <-|].
  pose proof (resolve_nonempty _ _ _ Hd Hres) as Hne.
  destruct (decide ("Acquisition Week" ∈ columns (combined inputs))) as [HA|HA].
  2:{ destruct (run_KeyError d h o inputs) as [ext H]; [done..|]. congruence. }
  destruct (homogeneous (column "Acquisition Week" (combined inputs))) eqn:Hh.
  2:{ destruct (run_TypeError_kinds d h o inputs) as [ext H]; [done..|].
      congruence. }
  destruct (py_sorted_dates_of inputs) as [Hs|Hs].
  2:{ destruct (run_TypeError_sorted d h o inputs) as [ext H]; [done..|].
      congruence. }
  destruct (run_Ok d h o inputs) as (l & ext & e & H & Hl); [done..|].
  rewrite Hrun in H. injection H as -> ->. done.
Qed.


(** On a non-empty dict of references to datasets the function does
    what [analyse] does on the datasets. *)
Lemma run_analyse d st inputs :
  d ≠ [] → resolve (heap st) d = Some inputs →
  ∃ st',
    match analyse inputs with
    | Ok out =>
        ∃ df_final,
          run_flexible_cohort_analysis d st = (Ok (RFrame df_final), st')
          ∧ heap st' !! df_final = Some out
    | Raise e => run_flexible_cohort_analysis d st = (Raise e, st')
    | Fault => False
    end.
Proof.
  intros Hd Hres. destruct st as [h o]. cbn [heap] in Hres.
  pose proof (resolve_nonempty _ _ _ Hd Hres) as Hne.
  rewrite analyse_eq by done.
  destruct (decide ("Acquisition Week" ∈ columns (combined inputs))) as [HA|HA].
  2:{ destruct (run_KeyError d h o inputs) as [ext H]; eauto. }
  destruct (homogeneous (column "Acquisition Week" (combined inputs))) eqn:Hh.
  2:{ destruct (run_TypeError_kinds d h o inputs) as [ext H]; eauto. }
  destruct (py_sorted_dates_of inputs) as [Hs|Hs]; rewrite Hs; cbn [mbind res_bind].
  - destruct (run_Ok d h o inputs) as (l & ext & e & H & Hl); eauto.
  - destruct (run_TypeError_sorted d h o inputs) as [ext H]; eauto.
Qed.

(** * The properties the specification states *)

Lemma returns_final d st inputs out :
  resolve (heap st) d = Some inputs → returns d st out →
  inputs ≠ []
  ∧ "Acquisition Week" ∈ columns (combined inputs)
  ∧ homogeneous (column "Acquisition Week" (combined inputs)) = true
  ∧ py_sorted (dates_of inputs) = Ok (dates_of inputs)
  ∧ out = final_frame inputs.
Proof.
  intros Hres (df_final & st' & Hrun & Hout).
  destruct (run_returns _ _ _ _ _ Hres Hrun) as (? & ? & ? & ? & Hl).
  rewrite Hl in Hout. by injection Hout as <-.
Qed.

Lemma sample_returns : returns sample_dict sample_state sample_out.
Proof.
  exists 7%nat, (run_flexible_cohort_analysis sample_dict sample_state).2.
  split; vm_compute; reflexivity.
Defined.

(** C4. On the empty mapping the function returns the message of the
    empty-input check as its result instead of raising, and it does so
    before anything else: no frame is created (the heap is as it was)
    and nothing is printed or shown (the output channel is as it was). *)
Theorem C4_empty_input st :
  run_flexible_cohort_analysis [] st
  = (Ok (RStr "Error: No dataframes provided."), st).
Proof. by destruct st. Qed.

(** ** Columns of the returned table *)

Lemma elem_of_weeked_columns inputs c :
  inputs ≠ [] → c ∈ weeked_columns inputs ↔ present inputs c.
Proof.
  intros Hne. unfold weeked_columns, present.
  rewrite elem_of_add_label, columns_combined, Exists_exists. split.
  - intros [->|(input & Hin & [->|Hc])]; eauto.
  - intros [->|[->|(input & Hin & Hc)]]; eauto.
    right. destruct inputs as [|input inputs]; [done|].
    exists input. split; [left|auto].
Qed.

Lemma columns_final inputs :
  inputs ≠ [] →
  columns (final_frame inputs) = filter (present inputs) target_columns.
Proof.
  intros Hne. unfold final_frame. cbn [columns].
  apply list_filter_iff. intros c. by apply elem_of_weeked_columns.
Qed.

(** C10. A table the function returns has the columns
    [Acquisition Week], [Week Number] and [OS], whatever the columns of
    the datasets. *)
Theorem C10_core_columns d st inputs out :
  resolve (heap st) d = Some inputs → returns d st out →
  "Acquisition Week" ∈ columns out
  ∧ "Week Number" ∈ columns out
  ∧ "OS" ∈ columns out.
Proof.
  intros Hres Hret.
  destruct (returns_final _ _ _ _ Hres Hret) as (Hne & HA & _ & _ & ->).
  unfold final_frame. cbn [columns]. rewrite !list_elem_of_filter.
  unfold weeked_columns. rewrite !elem_of_add_label.
  pose proof (OS_in_combined _ Hne).
  repeat split; auto; unfold target_columns; set_solver.
Qed.

Lemma C10_core_columns_witness :
  "Acquisition Week" ∈ columns sample_out
  ∧ "Week Number" ∈ columns sample_out
  ∧ "OS" ∈ columns sample_out.
Proof.
  apply (C10_core_columns sample_dict sample_state sample_inputs sample_out).
  - reflexivity.
  - exact sample_returns.
Defined.

(** C3 (as amended). The columns of a returned table are the labels of
    the code's allow-list [target_columns], which names the two money
    columns [Payout Total (€)] and [Total Gross (€)], that are present
    in the combined table, in the order of the allow-list; a column
    outside this list is never in the returned table. *)
Theorem C3_projection d st inputs out :
  resolve (heap st) d = Some inputs → returns d st out →
  columns out = filter (present inputs) target_columns
  ∧ ∀ c, c ∉ target_columns → c ∉ columns out.
Proof.
  intros Hres Hret.
  destruct (returns_final _ _ _ _ Hres Hret) as (Hne & _ & _ & _ & ->).
  rewrite columns_final by done. split; [done|].
  intros c Hc [_ Hin]%list_elem_of_filter. done.
Qed.

Lemma C3_projection_witness :
  columns sample_out = filter (present sample_inputs) target_columns
  ∧ ∀ c, c ∉ target_columns → c ∉ columns sample_out.
Proof.
  apply (C3_projection sample_dict sample_state sample_inputs sample_out).
  - reflexivity.
  - exact sample_returns.
Defined.

(** C3 as the specification states it fails: with the allow-list of the
    specification ([Payout Total], [Total Gross]) the columns of the
    returned table are not the listed columns that are present, the
    listed and present column [Payout Total] is dropped, and the
    column [Payout Total (€)], which that list lacks, is returned. *)
Lemma C3_spec_allow_list_counterexample :
  resolve (heap sample_state) sample_dict = Some sample_inputs
  ∧ returns sample_dict sample_state sample_out
  ∧ columns sample_out ≠ (filter (present sample_inputs) spec_allow_list)
  ∧ "Payout Total" ∈ (filter (present sample_inputs) spec_allow_list)
  ∧ ("Payout Total" ∉ columns sample_out)
  ∧ ("Payout Total (€)" ∉ spec_allow_list)
  ∧ "Payout Total (€)" ∈ columns sample_out.
Proof.
  split; [reflexivity|]. split; [exact sample_returns|].
  assert (columns sample_out
          = ["Acquisition Week"; "Week Number"; "OS"; "Payout Total (€)";
             "Margin"; "Week 8"]) as -> by (vm_compute; reflexivity).
  assert (filter (present sample_inputs) spec_allow_list
          = ["Acquisition Week"; "Week Number"; "OS"; "Payout Total";
             "Margin"; "Week 8"]) as -> by (vm_compute; reflexivity).
  unfold spec_allow_list.
  repeat split; try discriminate; set_solver.
Qed.

(** ** Datasets with their dates *)

Lemma homogeneous_dates l : Forall is_date l → homogeneous l = true.
Proof.
  induction 1 as [|v l [x ->] Hl IH]; simpl; [done|].
  rewrite IH, andb_true_r. apply forallb_forall. intros v Hv.
  rewrite Forall_forall in Hl.
  destruct (Hl v) as [y ->]; [by apply list_elem_of_In|done].
Qed.

Lemma column_dates_combined inputs :
  Forall (λ input, dated input.2) inputs →
  Forall is_date (column "Acquisition Week" (combined inputs)).
Proof.
  intros Hd. unfold column. rewrite rows_combined. apply Forall_forall.
  intros v Hv. apply list_elem_of_fmap in Hv as (r & -> & Hr).
  apply list_elem_of_bind in Hr as (input & Hr & Hin).
  apply list_elem_of_fmap in Hr as (r0 & -> & Hr0).
  rewrite cell_combine_row by done. unfold origin_cell.
  rewrite Forall_forall in Hd. destruct (Hd _ Hin) as [HA Hrows].
  rewrite decide_False by done. rewrite decide_True by done.
  rewrite Forall_forall in Hrows. auto.
Qed.

Lemma dates_of_dates inputs :
  Forall (λ input, dated input.2) inputs → Forall is_date (dates_of inputs).
Proof.
  intros Hd. apply column_dates_combined in Hd.
  rewrite Forall_forall in Hd. apply Forall_forall. intros v Hv.
  unfold dates_of in Hv. apply (proj1 (elem_of_unique _ _)) in Hv.
  apply Hd. unfold column. by rewrite <- (sorted_rows_perm inputs).
Qed.

(** On datasets that all have their dates the function returns. *)
Lemma dated_returns d st inputs :
  d ≠ [] → resolve (heap st) d = Some inputs →
  Forall (λ input, dated input.2) inputs →
  returns d st (final_frame inputs).
Proof.
  intros Hd Hres Hdat. destruct st as [h o]. cbn [heap] in Hres.
  pose proof (resolve_nonempty _ _ _ Hd Hres) as Hne.
  destruct (run_Ok d h o inputs) as (l & ext & e & Hrun & Hl); [done..| | | |].
  - destruct inputs as [|input inputs]; [done|].
    apply columns_combined. exists input. split; [left|].
    apply Forall_cons in Hdat as [[HA _] _]. auto.
  - by apply homogeneous_dates, column_dates_combined.
  - apply py_sorted_dates; [by apply dates_of_dates|apply dates_of_ascending].
  - by exists l, (mkState (h ++ ext) (o ++ [e])).
Qed.

(** The row count of a returned table. *)
Lemma returned_row_count d st inputs out :
  resolve (heap st) d = Some inputs → returns d st out →
  row_count out = sum_list_with (λ input, row_count input.2) inputs.
Proof.
  intros Hres Hret.
  destruct (returns_final _ _ _ _ Hres Hret) as (_ & _ & _ & _ & ->).
  unfold row_count at 1, final_frame. cbn [rows].
  rewrite length_fmap. unfold sorted_rows.
  by rewrite stable_sort_length, length_rows_combined.
Qed.

Lemma sample_dated : Forall (λ input, dated input.2) sample_inputs.
Proof.
  repeat constructor; try (by eexists); simpl; set_solver.
Defined.

(** C1. On a non-empty mapping the table the function returns has as
    many rows as the datasets have together: tagging, concatenation,
    sorting, the week numbers and the projection drop and duplicate no
    row.  And the function does return a table when every dataset has
    the required [Acquisition Week] column of dates. *)
Theorem C1_row_count d st inputs :
  d ≠ [] → resolve (heap st) d = Some inputs →
  (∀ out, returns d st out →
          row_count out = sum_list_with (λ input, row_count input.2) inputs)
  ∧ (Forall (λ input, dated input.2) inputs → ∃ out, returns d st out).
Proof.
  intros Hd Hres. split.
  - intros out Hret. by eapply returned_row_count.
  - intros Hdat. exists (final_frame inputs). by apply dated_returns.
Qed.

Lemma C1_row_count_witness :
  (∀ out, returns sample_dict sample_state out →
          row_count out
          = sum_list_with (λ input, row_count input.2) sample_inputs)
  ∧ (Forall (λ input, dated input.2) sample_inputs →
     ∃ out, returns sample_dict sample_state out).
Proof.
  apply (C1_row_count sample_dict sample_state sample_inputs).
  - discriminate.
  - reflexivity.
Defined.

(** C5 as the specification states it fails: on a dataset that lacks
    the [Acquisition Week] column the function raises [KeyError]. *)
Lemma C5_missing_acquisition_week_counterexample :
  [("Web", 2%nat)] ≠ []
  ∧ resolve (heap sample_state) [("Web", 2%nat)] = Some [("Web", sample_undated)]
  ∧ ("Acquisition Week" ∉ columns sample_undated)
  ∧ (run_flexible_cohort_analysis [("Web", 2%nat)] sample_state).1
    = Raise (KeyError "Acquisition Week").
Proof.
  split; [discriminate|]. split; [reflexivity|]. split.
  - unfold sample_undated. simpl. set_solver.
  - vm_compute. reflexivity.
Qed.

(** ** Order and origin of the returned rows *)

Lemma row_leb_key_le r1 r2 : row_leb sort_keys r1 r2 = true ↔ key_le r1 r2.
Proof.
  unfold row_leb, key_le, sort_keys, value_lt. cbn [lex_compare].
  destruct (value_compare (cell r1 "Acquisition Week")
              (cell r2 "Acquisition Week")) eqn:EA.
  - apply value_compare_eq in EA.
    destruct (value_compare (cell r1 "OS") (cell r2 "OS")) eqn:EO.
    + apply value_compare_eq in EO. split; [auto|done].
    + split; [auto|done].
    + split; [done|]. intros [?|[_ [?|HO]]]; [done..|].
      rewrite HO, value_compare_refl in EO. done.
  - split; [auto|done].
  - split; [done|]. intros [?|[HA _]]; [done|].
    rewrite HA, value_compare_refl in EA. done.
Qed.

Lemma final_keys inputs c :
  inputs ≠ [] → "Acquisition Week" ∈ columns (combined inputs) →
  c ∈ sort_keys → c ∈ columns (final_frame inputs) ∧ c ≠ "Week Number".
Proof.
  intros Hne HA Hc. unfold final_frame, weeked_columns. cbn [columns].
  rewrite list_elem_of_filter, elem_of_add_label.
  pose proof (OS_in_combined _ Hne).
  unfold sort_keys in Hc. apply elem_of_cons in Hc as [->|Hc].
  { split; [split; [auto|unfold target_columns; set_solver]|discriminate]. }
  apply list_elem_of_singleton in Hc as ->.
  split; [split; [auto|unfold target_columns; set_solver]|discriminate].
Qed.

(** C6. The rows of a returned table ascend by [Acquisition Week] and,
    within one date, by [OS]; and the sort is stable.  The returned rows
    are, position by position, the rows of the datasets in some order
    (a returned row has the sort key of its dataset row and, in every
    returned column but [Week Number], its cells), and in that order the
    dataset rows of one key stand as they stood in the concatenated
    datasets before the sort. *)
Theorem C6_sorted_stable d st inputs out :
  resolve (heap st) d = Some inputs → returns d st out →
  Sorted key_le (rows out)
  ∧ ∃ origins,
      origins ≡ₚ origins_of inputs
      ∧ Forall2 (λ r o,
          cell r <$> sort_keys = origin_key o
          ∧ ∀ c, c ∈ columns out → c ≠ "Week Number" →
                 cell r c = origin_cell o.1 o.2 c)
          (rows out) origins
      ∧ ∀ k, filter (λ o, origin_key o = k) origins
             = filter (λ o, origin_key o = k) (origins_of inputs).
Proof.
  intros Hres Hret.
  destruct (returns_final _ _ _ _ Hres Hret) as (Hne & HA & _ & _ & ->).
  split.
  - apply StronglySorted_Sorted. unfold final_frame. cbn [rows].
    eapply StronglySorted_fmap; [|apply sorted_rows_strongly].
    intros r1 r2 H. apply row_leb_key_le. rewrite <- H.
    apply row_leb_cells; intros c Hc;
      destruct (final_keys inputs c Hne HA Hc) as [Hin Hw];
      by rewrite cell_finish, decide_True, decide_False.
  - exists (sorted_origins inputs).
    split; [apply sorted_origins_perm|]. split; [|apply sorted_origins_stable].
    rewrite rows_final_origins. apply Forall2_fmap_l.
    apply Forall_Forall2_diag, Forall_forall. intros o Ho.
    cbv beta delta [compose].
    rewrite sorted_origins_perm in Ho. apply elem_of_origins_of in Ho as [Ho _].
    split; [|intros c Hc Hw; by apply cell_final_origin].
    unfold origin_key. apply list_fmap_ext. intros i c Hc.
    apply list_elem_of_lookup_2 in Hc.
    destruct (final_keys inputs c Hne HA Hc) as [Hin Hw].
    by apply cell_final_origin.
Qed.

Lemma C6_sorted_stable_witness :
  Sorted key_le (rows sample_out)
  ∧ ∃ origins,
      origins ≡ₚ origins_of sample_inputs
      ∧ Forall2 (λ r o,
          cell r <$> sort_keys = origin_key o
          ∧ ∀ c, c ∈ columns sample_out → c ≠ "Week Number" →
                 cell r c = origin_cell o.1 o.2 c)
          (rows sample_out) origins
      ∧ ∀ k, filter (λ o, origin_key o = k) origins
             = filter (λ o, origin_key o = k) (origins_of sample_inputs).
Proof.
  apply (C6_sorted_stable sample_dict sample_state sample_inputs sample_out).
  - reflexivity.
  - exact sample_returns.
Defined.

(** The sort keys and the [Margin] of the rows of the sample table, and
    the [Margin] of the two dataset rows that tie on the first date. *)
Lemma sample_rows_cells :
  (λ r, (cell r "Acquisition Week", cell r "OS", cell r "Margin"))
    <$> rows sample_out
  = [(VDate 20240101, VStr "Android", VMissing);
     (VDate 20240101, VStr "iOS", VNum 3);
     (VDate 20240101, VStr "iOS", VNum 5);
     (VDate 20240108, VStr "Android", VMissing);
     (VDate 20240115, VStr "iOS", VNum 4)].
Proof. vm_compute. reflexivity. Qed.

Lemma sample_tied_origins :
  (λ o, origin_cell o.1 o.2 "Margin")
    <$> filter (λ o, origin_key o = [VDate 20240101; VStr "iOS"])
          (origins_of sample_inputs)
  = [VNum 3; VNum 5].
Proof. vm_compute. reflexivity. Qed.

Lemma Margin_in_sample : "Margin" ∈ columns sample_out.
Proof. apply list_elem_of_In. vm_compute. tauto. Qed.

Ltac sample_rows HK :=
  pose proof sample_rows_cells as HK; unfold sample_rows_exchanged;
  destruct (rows sample_out) as [|r0 [|r1 [|r2 [|r3 [|r4 [|r5 l]]]]]];
  try discriminate HK;
  injection HK as HA0 HO0 HM0 HA1 HO1 HM1 HA2 HO2 HM2 HA3 HO3 HM3 HA4 HO4 HM4.

(** Stability says more than the order of the keys.  The rows of the
    sample table with two tied rows exchanged are a rearrangement of
    the returned rows and ascend by key as well, but they are the
    dataset rows in no order that keeps tied rows as they stood. *)
Lemma exchanged_rows_sorted :
  sample_rows_exchanged ≠ rows sample_out
  ∧ sample_rows_exchanged ≡ₚ rows sample_out
  ∧ Sorted key_le sample_rows_exchanged.
Proof.
  sample_rows HK.
  split; [intros [= E]; congruence|]. split; [apply perm_skip, perm_swap|].
  unfold key_le, value_lt.
  repeat first [apply Sorted_cons | apply Sorted_nil
               | apply HdRel_cons | apply HdRel_nil].
  all: rewrite ?HA0, ?HA1, ?HA2, ?HA3, ?HA4, ?HO0, ?HO1, ?HO2, ?HO3, ?HO4.
  all: first [by left | right; split; [done|first [by left | by right]]].
Qed.

Lemma exchanged_rows_not_stable :
  ¬ ∃ origins,
      origins ≡ₚ origins_of sample_inputs
      ∧ Forall2 (λ r o,
          cell r <$> sort_keys = origin_key o
          ∧ ∀ c, c ∈ columns sample_out → c ≠ "Week Number" →
                 cell r c = origin_cell o.1 o.2 c)
          sample_rows_exchanged origins
      ∧ ∀ k, filter (λ o, origin_key o = k) origins
             = filter (λ o, origin_key o = k) (origins_of sample_inputs).
Proof.
  intros (origins & _ & HF & Hst).
  specialize (Hst [VDate 20240101; VStr "iOS"]).
  apply (f_equal (fmap (λ o, origin_cell o.1 o.2 "Margin"))) in Hst.
  rewrite sample_tied_origins in Hst.
  pose proof Margin_in_sample as HM. revert HF.
  sample_rows HK. intros HF.
  apply Forall2_cons_inv_l in HF as (x0 & l0 & [K0 _] & HF & ->).
  apply Forall2_cons_inv_l in HF as (x1 & l1 & [K1 C1] & HF & ->).
  apply Forall2_cons_inv_l in HF as (x2 & l2 & [K2 _] & HF & ->).
  apply Forall2_cons_inv_l in HF as (x3 & l3 & [K3 _] & HF & ->).
  apply Forall2_cons_inv_l in HF as (x4 & l4 & [K4 _] & HF & ->).
  apply Forall2_nil_inv_l in HF as ->.
  unfold sort_keys in K0, K1, K2, K3, K4. cbn [fmap list_fmap] in K0, K1, K2, K3, K4.
  rewrite HA0, HO0 in K0. rewrite HA2, HO2 in K1. rewrite HA1, HO1 in K2.
  rewrite HA3, HO3 in K3. rewrite HA4, HO4 in K4.
  rewrite filter_cons_False in Hst by (rewrite <- K0; discriminate).
  rewrite filter_cons_True in Hst by (by rewrite <- K1).
  rewrite filter_cons_True in Hst by (by rewrite <- K2).
  rewrite filter_cons_False in Hst by (rewrite <- K3; discriminate).
  rewrite filter_cons_False in Hst by (rewrite <- K4; discriminate).
  rewrite filter_nil in Hst. injection Hst as H1 H2.
  rewrite <- (C1 "Margin" HM), HM2 in H1; [discriminate|discriminate].
Qed.

(** C7. Every row of a returned table carries in [OS] the label of the
    dataset it comes from, also when that dataset had an [OS] column of
    its own: the returned rows are, in some order, the rows of the
    datasets, each with its dataset's label in [OS] and, in every other
    returned column but [Week Number], the cell it had in its dataset. *)
Theorem C7_source_label d st inputs out :
  resolve (heap st) d = Some inputs → returns d st out →
  ∃ origins,
    origins ≡ₚ origins_of inputs
    ∧ Forall2 (λ r o,
        cell r "OS" = VStr o.1.1
        ∧ ∀ c, c ∈ columns out → c ≠ "Week Number" →
               cell r c = origin_cell o.1 o.2 c)
        (rows out) origins.
Proof.
  intros Hres Hret.
  destruct (returns_final _ _ _ _ Hres Hret) as (Hne & HA & _ & _ & ->).
  exists (sorted_origins inputs). split; [apply sorted_origins_perm|].
  rewrite rows_final_origins. apply Forall2_fmap_l.
  apply Forall_Forall2_diag, Forall_forall. intros o Ho.
  cbv beta delta [compose].
  rewrite sorted_origins_perm in Ho. apply elem_of_origins_of in Ho as [Ho _].
  split; [|intros c Hc Hw; by apply cell_final_origin].
  rewrite cell_final_origin; [|done| |discriminate].
  - unfold origin_cell. by rewrite decide_True.
  - by apply OS_in_final.
Qed.

Lemma C7_source_label_witness :
  ∃ origins,
    origins ≡ₚ origins_of sample_inputs
    ∧ Forall2 (λ r o,
        cell r "OS" = VStr o.1.1
        ∧ ∀ c, c ∈ columns sample_out → c ≠ "Week Number" →
               cell r c = origin_cell o.1 o.2 c)
        (rows sample_out) origins.
Proof.
  apply (C7_source_label sample_dict sample_state sample_inputs sample_out).
  - reflexivity.
  - exact sample_returns.
Defined.

(** ** Week numbers *)

Lemma StronglySorted_lookup_lt {A} (R : A → A → Prop) l i j x y :
  StronglySorted R l → l !! i = Some x → l !! j = Some y → (i < j)%nat →
  R x y.
Proof.
  intros Hl. revert i j. induction Hl as [|z l Hl IH Hz]; intros i j Hi Hj Hlt.
  - done.
  - destruct j as [|j]; [lia|]. destruct i as [|i].
    + injection Hi as ->. rewrite Forall_forall in Hz.
      apply Hz. by eapply list_elem_of_lookup_2.
    + apply (IH i j); [done..|lia].
Qed.

Lemma dict_get_None {V} (d : list (value * V)) k :
  k ∉ d.*1 → dict_get d k = None.
Proof.
  induction d as [|[k' v] d IH]; simpl; [done|].
  intros H. apply not_elem_of_cons in H as [Hne H].
  rewrite IH by done. by rewrite decide_False by done.
Qed.

Lemma dict_get_imap {V} (g : nat → V) l : ∀ i k,
  NoDup l → l !! i = Some k →
  dict_get (imap (λ j x, (x, g j)) l) k = Some (g i).
Proof.
  revert g. induction l as [|x l IH]; intros g i k Hnd Hi; [done|].
  apply NoDup_cons in Hnd as [Hx Hnd]. rewrite imap_cons. cbn [dict_get].
  destruct i as [|i].
  - injection Hi as ->. rewrite dict_get_None.
    + by rewrite decide_True.
    + rewrite fmap_imap.
      rewrite (imap_ext _ (λ _ x, x)) by done.
      by rewrite (imap_const id), list_fmap_id.
  - simpl in Hi. pose proof (IH (g ∘ S) i k Hnd Hi) as H.
    change (imap ((λ j x, (x, g j)) ∘ S) l)
      with (imap (λ j x, (x, (g ∘ S) j)) l).
    by rewrite H.
Qed.

Lemma week_label_inj i j : week_label i = week_label j → i = j.
Proof.
  unfold week_label. intros H. injection H as H.
  change (pretty (i + 1)%nat = pretty (j + 1)%nat) in H.
  apply (inj (pretty : nat → string)) in H. lia.
Qed.

Lemma week_of_lookup unique_dates r i :
  NoDup unique_dates →
  unique_dates !! i = Some (cell r "Acquisition Week") →
  week_of unique_dates r = VStr (week_label i).
Proof.
  intros Hnd Hi. unfold week_of, week_map.
  change (imap _ unique_dates)
    with (imap (λ j x, (x, week_label j)) unique_dates).
  by rewrite (dict_get_imap week_label unique_dates i _ Hnd Hi).
Qed.

Lemma cell_finish_week inputs r :
  cell (finish inputs r) "Week Number" = week_of (dates_of inputs) r.
Proof.
  rewrite cell_finish, decide_True; [by rewrite decide_True|].
  unfold final_frame, weeked_columns. cbn [columns].
  apply list_elem_of_filter. split.
  - apply elem_of_add_label. auto.
  - unfold target_columns. set_solver.
Qed.

Lemma cell_finish_date inputs r :
  inputs ≠ [] → "Acquisition Week" ∈ columns (combined inputs) →
  cell (finish inputs r) "Acquisition Week" = cell r "Acquisition Week".
Proof.
  intros Hne HA.
  destruct (final_keys inputs "Acquisition Week" Hne HA) as [Hin Hw];
    [unfold sort_keys; set_solver|].
  by rewrite cell_finish, decide_True, decide_False.
Qed.

Lemma date_in_dates_of inputs r :
  r ∈ sorted_rows inputs → cell r "Acquisition Week" ∈ dates_of inputs.
Proof.
  intros Hr. unfold dates_of. apply elem_of_unique.
  apply list_elem_of_fmap. eauto.
Qed.

Lemma NoDup_dates_of inputs : NoDup (dates_of inputs).
Proof. apply NoDup_unique. Qed.

(** C2. The week numbers of a returned table number its distinct
    dates in ascending order.  With [unique_dates] the distinct
    [Acquisition Week] cells of the table in ascending order: every row
    carries the label [Week i+1] of the position [i] of its date in
    [unique_dates]; an earlier date has a smaller position; every
    position [0 .. N-1], so every rank [1 .. N], labels some row; two
    positions never share a label; and rows of one date have one label. *)
Theorem C2_week_numbers d st inputs out :
  resolve (heap st) d = Some inputs → returns d st out →
  ∃ unique_dates,
    StronglySorted value_lt unique_dates
    ∧ (∀ v, v ∈ unique_dates ↔ v ∈ column "Acquisition Week" out)
    ∧ (∀ r, r ∈ rows out →
         ∃ i, unique_dates !! i = Some (cell r "Acquisition Week")
              ∧ cell r "Week Number" = VStr ("Week " +:+ pretty (i + 1)%nat))
    ∧ (∀ i j d1 d2,
         unique_dates !! i = Some d1 → unique_dates !! j = Some d2 →
         value_lt d1 d2 → (i < j)%nat)
    ∧ (∀ i, (i < length unique_dates)%nat →
         ∃ r, r ∈ rows out
              ∧ cell r "Week Number" = VStr ("Week " +:+ pretty (i + 1)%nat))
    ∧ (∀ i j, "Week " +:+ pretty (i + 1)%nat = "Week " +:+ pretty (j + 1)%nat →
              i = j)
    ∧ (∀ r1 r2, r1 ∈ rows out → r2 ∈ rows out →
         cell r1 "Acquisition Week" = cell r2 "Acquisition Week" →
         cell r1 "Week Number" = cell r2 "Week Number").
Proof.
  intros Hres Hret.
  destruct (returns_final _ _ _ _ Hres Hret) as (Hne & HA & _ & _ & ->).
  pose proof (dates_of_ascending inputs) as Hasc.
  pose proof (NoDup_dates_of inputs) as Hnd.
  assert (∀ r, r ∈ rows (final_frame inputs) →
            ∃ r0 i, r0 ∈ sorted_rows inputs
              ∧ cell r "Acquisition Week" = cell r0 "Acquisition Week"
              ∧ dates_of inputs !! i = Some (cell r0 "Acquisition Week")
              ∧ cell r "Week Number" = VStr (week_label i)) as Hrow.
  { intros r Hr. unfold final_frame in Hr. cbn [rows] in Hr.
    apply list_elem_of_fmap in Hr as (r0 & -> & Hr0).
    destruct (list_elem_of_lookup_1 _ _ (date_in_dates_of _ _ Hr0)) as [i Hi].
    exists r0, i. rewrite cell_finish_date, cell_finish_week by done.
    by rewrite (week_of_lookup _ _ i). }
  exists (dates_of inputs). repeat split.
  - done.
  - intros Hv. unfold dates_of in Hv. apply (proj1 (elem_of_unique _ _)) in Hv.
    apply list_elem_of_fmap in Hv as (r0 & -> & Hr0).
    apply list_elem_of_fmap. exists (finish inputs r0).
    rewrite cell_finish_date by done. split; [done|].
    unfold final_frame. cbn [rows]. apply list_elem_of_fmap. eauto.
  - intros Hv. apply list_elem_of_fmap in Hv as (r & -> & Hr).
    destruct (Hrow r Hr) as (r0 & i & Hr0 & -> & _ & _).
    by apply date_in_dates_of.
  - intros r Hr. destruct (Hrow r Hr) as (r0 & i & Hr0 & -> & Hi & Hw).
    by exists i.
  - intros i j d1 d2 Hi Hj Hlt.
    destruct (decide (i < j)%nat) as [|Hge]; [done|].
    destruct (decide (i = j)) as [->|Hne'].
    + rewrite Hi in Hj. injection Hj as ->. by destruct (value_lt_irrefl d2).
    + assert (value_lt d2 d1) as Hgt.
      { eapply (StronglySorted_lookup_lt _ _ j i); [done..|lia]. }
      by destruct (value_lt_asym _ _ Hlt).
  - intros i Hi. destruct (lookup_lt_is_Some_2 _ _ Hi) as [v Hv].
    pose proof (list_elem_of_lookup_2 _ _ _ Hv) as Hin.
    unfold dates_of in Hin. apply (proj1 (elem_of_unique _ _)) in Hin.
    apply list_elem_of_fmap in Hin as (r0 & -> & Hr0).
    exists (finish inputs r0). split.
    + unfold final_frame. cbn [rows]. apply list_elem_of_fmap. eauto.
    + rewrite cell_finish_week. by rewrite (week_of_lookup _ _ i).
  - apply week_label_inj.
  - intros r1 r2 Hr1 Hr2 Heq.
    destruct (Hrow r1 Hr1) as (r01 & i1 & _ & E1 & Hi1 & ->).
    destruct (Hrow r2 Hr2) as (r02 & i2 & _ & E2 & Hi2 & ->).
    rewrite <- E1, Heq, E2 in Hi1.
    by rewrite (NoDup_lookup _ _ _ _ Hnd Hi1 Hi2).
Qed.

Lemma C2_week_numbers_witness :
  ∃ unique_dates,
    StronglySorted value_lt unique_dates
    ∧ (∀ v, v ∈ unique_dates ↔ v ∈ column "Acquisition Week" sample_out)
    ∧ (∀ r, r ∈ rows sample_out →
         ∃ i, unique_dates !! i = Some (cell r "Acquisition Week")
              ∧ cell r "Week Number" = VStr ("Week " +:+ pretty (i + 1)%nat))
    ∧ (∀ i j d1 d2,
         unique_dates !! i = Some d1 → unique_dates !! j = Some d2 →
         value_lt d1 d2 → (i < j)%nat)
    ∧ (∀ i, (i < length unique_dates)%nat →
         ∃ r, r ∈ rows sample_out
              ∧ cell r "Week Number" = VStr ("Week " +:+ pretty (i + 1)%nat))
    ∧ (∀ i j, "Week " +:+ pretty (i + 1)%nat = "Week " +:+ pretty (j + 1)%nat →
              i = j)
    ∧ (∀ r1 r2, r1 ∈ rows sample_out → r2 ∈ rows sample_out →
         cell r1 "Acquisition Week" = cell r2 "Acquisition Week" →
         cell r1 "Week Number" = cell r2 "Week Number").
Proof.
  apply (C2_week_numbers sample_dict sample_state sample_inputs sample_out).
  - reflexivity.
  - exact sample_returns.
Defined.

(** ** Caller-owned datasets *)

Lemma keeps_ret {A} h0 (a : A) (Q : A → Prop) : Q a → keeps h0 (mret a) Q.
Proof. intros HQ st Hst. split; [done|]. by intros a' [= <-]. Qed.

Lemma keeps_bind {A B} h0 (m : M A) (f : A → M B) Q R :
  keeps h0 m Q → (∀ a, Q a → keeps h0 (f a) R) → keeps h0 (m ≫= f) R.
Proof.
  intros Hm Hf st Hst. destruct (Hm st Hst) as [Hst' HQ].
  unfold mbind, M_bind. destruct (m st) as [[a|e|] st'] eqn:E; simpl in *.
  - by apply Hf; [apply HQ|].
  - done.
  - done.
Qed.

Lemma keeps_weaken {A} h0 (m : M A) (Q R : A → Prop) :
  keeps h0 m Q → (∀ a, Q a → R a) → keeps h0 m R.
Proof. intros Hm HQR st Hst. destruct (Hm st Hst). split; auto. Qed.

Lemma keeps_lift {A} h0 (r : res A) : keeps h0 (lift r) (λ _, True).
Proof. by intros st Hst. Qed.

Lemma keeps_deref h0 l : keeps h0 (deref l) (λ _, True).
Proof. intros st Hst. unfold deref. by destruct (heap st !! l). Qed.

Lemma keeps_emit h0 e : keeps h0 (emit e) (λ _, True).
Proof. by intros st Hst. Qed.

(** A new object is allocated outside [h0]. *)
Lemma keeps_alloc h0 df : keeps h0 (alloc df) (fresh h0).
Proof.
  intros st Hst. unfold alloc. simpl. split.
  - by apply prefix_app_r.
  - intros a [= <-]. by apply prefix_length.
Qed.

(** An assignment through a fresh reference leaves [h0] as it was. *)
Lemma keeps_store h0 l df : fresh h0 l → keeps h0 (store l df) (λ _, True).
Proof.
  intros Hl st Hst. unfold store. destruct (heap st !! l); [|done].
  simpl. split; [|done]. destruct Hst as [k ->].
  rewrite insert_app_r_alt by done. by apply prefix_app_r.
Qed.

Lemma keeps_for_in {A S} h0 (l : list A) (body : A → S → M S) s :
  (∀ x s', keeps h0 (body x s') (λ _, True)) →
  keeps h0 (for_in l body s) (λ _, True).
Proof.
  intros Hbody. revert s. induction l as [|x l IH]; intros s; simpl.
  - by apply keeps_ret.
  - eapply keeps_bind; [apply Hbody|]. intros s' _. apply IH.
Qed.

Lemma keeps_deref_all h0 ls : keeps h0 (deref_all ls) (λ _, True).
Proof.
  induction ls as [|l ls IH]; simpl; [by apply keeps_ret|].
  eapply keeps_bind; [apply keeps_deref|]. intros df _.
  eapply keeps_bind; [apply IH|]. intros dfs _. by apply keeps_ret.
Qed.

(** The copy is a new object: it does not alias a caller's dataset. *)
Lemma keeps_df_copy h0 df : keeps h0 (df_copy df) (fresh h0).
Proof.
  eapply keeps_bind; [apply keeps_deref|]. intros d _. apply keeps_alloc.
Qed.

Lemma keeps_df_setitem h0 df c v :
  fresh h0 df → keeps h0 (df_setitem df c v) (λ _, True).
Proof.
  intros Hf. eapply keeps_bind; [apply keeps_deref|]. intros d _.
  by apply keeps_store.
Qed.

Lemma keeps_df_setitem_series h0 df c s :
  fresh h0 df → keeps h0 (df_setitem_series df c s) (λ _, True).
Proof.
  intros Hf. eapply keeps_bind; [apply keeps_deref|]. intros d _.
  by apply keeps_store.
Qed.

Lemma keeps_df_getitem h0 df c : keeps h0 (df_getitem df c) (λ _, True).
Proof.
  eapply keeps_bind; [apply keeps_deref|]. intros d _. apply keeps_lift.
Qed.

Lemma keeps_df_columns h0 df : keeps h0 (df_columns df) (λ _, True).
Proof.
  eapply keeps_bind; [apply keeps_deref|]. intros d _. by apply keeps_ret.
Qed.

Lemma keeps_pd_concat h0 dfs : keeps h0 (pd_concat dfs) (fresh h0).
Proof.
  eapply keeps_bind; [apply keeps_deref_all|]. intros ds _. apply keeps_alloc.
Qed.

Lemma keeps_lift_alloc h0 (f : DataFrame → res DataFrame) df :
  keeps h0 (d ← deref df; d' ← lift (f d); alloc d') (fresh h0).
Proof.
  eapply keeps_bind; [apply keeps_deref|]. intros d _.
  eapply keeps_bind; [apply keeps_lift|]. intros d' _. apply keeps_alloc.
Qed.

Lemma keeps_px_box h0 df x y color points title orders :
  keeps h0 (px_box df x y color points title orders) (λ _, True).
Proof.
  eapply keeps_bind; [apply keeps_deref|]. intros d _. by apply keeps_ret.
Qed.

Lemma keeps_run h0 d :
  keeps h0 (run_flexible_cohort_analysis d) (λ _, True).
Proof.
  unfold run_flexible_cohort_analysis.
  eapply keeps_bind.
  { apply keeps_for_in. intros [source_name df_raw] processed_dfs.
    eapply keeps_bind; [apply keeps_df_copy|]. intros df_temp Hfresh.
    eapply keeps_bind; [by apply keeps_df_setitem|]. intros _ _.
    by apply keeps_ret. }
  intros processed_dfs _. case_bool_decide; [by apply keeps_ret|].
  eapply keeps_bind; [apply keeps_pd_concat|]. intros df_combined _.
  eapply keeps_bind; [apply keeps_lift_alloc|].
  clear df_combined. intros df_combined Hfresh.
  eapply keeps_bind; [apply keeps_df_getitem|]. intros dates _.
  eapply keeps_bind; [apply keeps_lift|]. intros unique_dates _.
  eapply keeps_bind; [apply keeps_df_getitem|]. intros dates' _.
  eapply keeps_bind; [by apply keeps_df_setitem_series|]. intros _ _.
  eapply keeps_bind; [apply keeps_df_columns|]. intros present _.
  eapply keeps_bind; [apply keeps_lift_alloc|]. intros df_final _.
  eapply keeps_bind; [apply keeps_df_columns|]. intros present' _.
  eapply keeps_bind; [|intros _ _; by apply keeps_ret].
  case_bool_decide.
  - eapply keeps_bind; [apply keeps_lift_alloc|]. intros df_long _.
    eapply keeps_bind; [apply keeps_px_box|]. intros fig_box _.
    apply keeps_emit.
  - apply keeps_emit.
Qed.

(** C9. A call never changes a dataset of its caller: whatever the
    mapping and however the call ends, the heap it leaves is the heap
    it found followed by the objects it created, so every object that
    existed before the call has the columns, rows and cells it had.
    The tagging assignment goes through the reference of the copy,
    which is fresh ([keeps_df_copy]), and the week numbers are assigned
    through the reference [sort_values] returned. *)
Theorem C9_inputs_untouched d st :
  heap st `prefix_of` heap (run_flexible_cohort_analysis d st).2
  ∧ ∀ l df, heap st !! l = Some df →
            heap (run_flexible_cohort_analysis d st).2 !! l = Some df.
Proof.
  destruct (keeps_run (heap st) d st) as [Hpre _]; [done|].
  split; [done|]. intros l df Hl. by eapply prefix_lookup_Some.
Qed.

(** ** Merging at once and merging separately *)

Lemma present_app inputs1 inputs2 c :
  present (inputs1 ++ inputs2) c ↔ present inputs1 c ∨ present inputs2 c.
Proof. unfold present. rewrite Exists_app. tauto. Qed.

Lemma elem_of_columns_final inputs c :
  inputs ≠ [] →
  c ∈ columns (final_frame inputs) ↔ c ∈ target_columns ∧ present inputs c.
Proof.
  intros Hne. rewrite columns_final, list_elem_of_filter by done. tauto.
Qed.

Lemma lookup_final_row inputs o c :
  o.1 ∈ inputs → c ≠ "Week Number" →
  finish inputs (combine_row inputs o.1 o.2) !! c
  = if decide (c ∈ columns (final_frame inputs))
    then Some (origin_cell o.1 o.2 c)
    else None.
Proof.
  intros Hin Hw. unfold finish at 1. rewrite lookup_reindex.
  fold (columns (final_frame inputs)).
  change (filter _ target_columns) with (columns (final_frame inputs)).
  destruct (decide (c ∈ columns (final_frame inputs))) as [Hc|Hc]; [|done].
  pose proof Hc as Hc'. unfold final_frame in Hc'. cbn [columns] in Hc'.
  apply list_elem_of_filter in Hc' as [Hc' _]. rewrite decide_True by done.
  rewrite cell_insert, decide_False by congruence.
  by rewrite cell_combine_row.
Qed.

Lemma origin_cell_absent o c :
  c ∈ target_columns → c ∉ columns (final_frame [o.1]) →
  origin_cell o.1 o.2 c = VMissing.
Proof.
  intros Ht Hc. rewrite elem_of_columns_final in Hc by done.
  assert (¬ present [o.1] c) as Hp by tauto.
  unfold present in Hp. rewrite Exists_cons in Hp.
  unfold origin_cell. rewrite decide_False by tauto.
  by rewrite decide_False by tauto.
Qed.

Lemma lookup_separate_row cols o c :
  c ≠ "Week Number" → c ∈ target_columns →
  separate_row cols o !! c
  = if decide (c ∈ cols) then Some (origin_cell o.1 o.2 c) else None.
Proof.
  intros Hw Ht. unfold separate_row. rewrite lookup_reindex.
  destruct (decide (c ∈ cols)); [|done]. f_equal.
  destruct (decide (c ∈ columns (final_frame [o.1]))) as [Hc|Hc].
  - apply cell_final_origin; [left|done..].
  - symmetry. by apply origin_cell_absent.
Qed.

Lemma delete_week_separate inputs cols o :
  o.1 ∈ inputs →
  (∀ c, c ∈ cols ↔ c ∈ columns (final_frame inputs)) →
  delete "Week Number" (finish inputs (combine_row inputs o.1 o.2))
  = delete "Week Number" (separate_row cols o).
Proof.
  intros Hin Hcols. apply map_eq. intros c. rewrite !lookup_delete.
  destruct (decide ("Week Number" = c)) as [|Hw]; [done|].
  rewrite lookup_final_row by done.
  destruct (decide (c ∈ columns (final_frame inputs))) as [Hc|Hc].
  - rewrite lookup_separate_row; [by rewrite decide_True by by apply Hcols|done|].
    unfold final_frame in Hc. cbn [columns] in Hc.
    by apply list_elem_of_filter in Hc as [_ ?].
  - unfold separate_row. rewrite lookup_reindex.
    rewrite decide_False; [done|]. by rewrite Hcols.
Qed.

Lemma cell_separate_row cols o c :
  c ∈ sort_keys → c ∈ cols →
  cell (separate_row cols o) c = origin_cell o.1 o.2 c.
Proof.
  intros Hk Hc. unfold cell at 1. rewrite lookup_separate_row.
  - by rewrite decide_True.
  - unfold sort_keys in Hk. set_solver.
  - unfold sort_keys, target_columns in *. set_solver.
Qed.

Lemma sort_values_Ok keys df :
  Forall (λ c, c ∈ columns df) keys →
  Forall (λ c, homogeneous (column c df) = true) keys →
  sort_values keys df
  = Ok {| columns := columns df;
          rows := stable_sort (row_leb keys) (rows df) |}.
Proof.
  intros Hcols Hhom. unfold sort_values.
  destruct (list_find _ keys) as [[i c]|] eqn:E.
  { apply list_find_Some in E as (Hi & Hc & _).
    rewrite Forall_forall in Hcols. destruct Hc.
    by eapply Hcols, list_elem_of_lookup_2. }
  assert (forallb (λ c, homogeneous (column c df)) keys = true) as ->; [|done].
  apply forallb_forall. intros c Hc%list_elem_of_In.
  rewrite Forall_forall in Hhom. auto.
Qed.

Lemma concat_frames_two ta tb :
  concat_frames [ta; tb]
  = {| columns := unique (columns ta ++ columns tb);
       rows := (reindex (columns ta) (unique (columns ta ++ columns tb))
                <$> rows ta)
               ++ (reindex (columns tb) (unique (columns ta ++ columns tb))
                   <$> rows tb) |}.
Proof.
  unfold concat_frames. cbn [fmap list_fmap mjoin list_join].
  rewrite app_nil_r, !bind_cons, bind_nil, app_nil_r. done.
Qed.

Lemma origins_of_two ia ib :
  origins_of [ia; ib] = origins_of [ia] ++ origins_of [ib].
Proof.
  unfold origins_of. by rewrite !bind_cons, bind_nil, !app_nil_r.
Qed.

Lemma origin_leb_antisym o1 o2 :
  origin_leb o1 o2 = true → origin_leb o2 o1 = true →
  origin_key o1 = origin_key o2.
Proof.
  intros H1 H2. rewrite !origin_key_cells. by apply row_leb_antisym.
Qed.

Lemma origin_leb_tie o1 o2 :
  origin_key o1 = origin_key o2 → origin_leb o1 o2 = true.
Proof.
  intros H. apply row_leb_tie. by rewrite <- !origin_key_cells.
Qed.

Lemma sorted_origins_two ia ib :
  stable_sort origin_leb (sorted_origins [ia] ++ sorted_origins [ib])
  = sorted_origins [ia; ib].
Proof.
  unfold sorted_origins. rewrite origins_of_two.
  apply (stable_sort_app_sorted origin_leb origin_key).
  - intros o1 o2. apply row_leb_total.
  - intros o1 o2 o3. apply row_leb_trans.
  - apply origin_leb_tie.
  - apply origin_leb_antisym.
Qed.

Lemma sorted_origins_single input o :
  o ∈ sorted_origins [input] → o.1 = input.
Proof.
  rewrite sorted_origins_perm, elem_of_origins_of.
  intros [H _]. by apply list_elem_of_singleton in H.
Qed.

Lemma rows_concat_separate ia ib :
  rows (concat_frames [final_frame [ia]; final_frame [ib]])
  = separate_row
      (unique (columns (final_frame [ia]) ++ columns (final_frame [ib])))
    <$> (sorted_origins [ia] ++ sorted_origins [ib]).
Proof.
  rewrite concat_frames_two. cbn [rows].
  rewrite fmap_app, !rows_final_origins, <- !list_fmap_compose.
  f_equal; apply list_fmap_ext; intros i o Ho;
    apply list_elem_of_lookup_2, sorted_origins_single in Ho;
    unfold compose, separate_row; by rewrite Ho.
Qed.

Lemma origin_cell_in_column inputs o c :
  o ∈ origins_of inputs → origin_cell o.1 o.2 c ∈ column c (combined inputs).
Proof.
  intros Ho. unfold column. rewrite rows_combined_origins, <- list_fmap_compose.
  apply list_elem_of_fmap. exists o. split; [|done].
  apply elem_of_origins_of in Ho as [Ho _].
  unfold compose. by rewrite cell_combine_row.
Qed.

Lemma homogeneous_keys inputs c :
  inputs ≠ [] →
  homogeneous (column "Acquisition Week" (combined inputs)) = true →
  c ∈ sort_keys → homogeneous (column c (combined inputs)) = true.
Proof.
  intros Hne Hh Hc. unfold sort_keys in Hc.
  apply elem_of_cons in Hc as [->|Hc]; [done|].
  apply list_elem_of_singleton in Hc as ->.
  apply homogeneous_strings, column_OS_combined.
Qed.

Lemma NoDup_target_columns : NoDup target_columns.
Proof.
  apply (bool_decide_unpack (NoDup target_columns)). vm_compute. exact I.
Qed.

Lemma NoDup_columns_final inputs : NoDup (columns (final_frame inputs)).
Proof.
  unfold final_frame. cbn [columns]. apply NoDup_filter, NoDup_target_columns.
Qed.

(** C8 (as amended). When merging two datasets at once and merging
    each alone all return a table, concatenating the two separate
    results and sorting again succeeds and gives the rows of the
    table merged at once, in the same order and with the same cells in
    every column but [Week Number].  The two tables have the same
    columns up to their order: the table merged again lists the columns
    of the first separate result and then the further ones of the
    second, which need not be the order of the table merged at once. *)
Theorem C8_merge_separately dAB dA dB stAB stA stB ia ib T TA TB :
  resolve (heap stAB) dAB = Some [ia; ib] → returns dAB stAB T →
  resolve (heap stA) dA = Some [ia] → returns dA stA TA →
  resolve (heap stB) dB = Some [ib] → returns dB stB TB →
  ∃ T', remerge TA TB = Ok T'
        ∧ delete "Week Number" <$> rows T = delete "Week Number" <$> rows T'
        ∧ columns T ≡ₚ columns T'
        ∧ columns T' = unique (columns TA ++ columns TB).
Proof.
  intros Hres Hret HresA HretA HresB HretB.
  destruct (returns_final _ _ _ _ Hres Hret) as (Hne & HA & Hh & _ & ->).
  destruct (returns_final _ _ _ _ HresA HretA) as (_ & _ & _ & _ & ->).
  destruct (returns_final _ _ _ _ HresB HretB) as (_ & _ & _ & _ & ->).
  set (U := unique (columns (final_frame [ia]) ++ columns (final_frame [ib]))).
  assert (∀ c, c ∈ U ↔ c ∈ columns (final_frame [ia; ib])) as Hcols.
  { intros c. unfold U.
    rewrite elem_of_unique, elem_of_app, !elem_of_columns_final by done.
    change [ia; ib] with ([ia] ++ [ib]). rewrite present_app. tauto. }
  assert (∀ c, c ∈ sort_keys → c ∈ U) as Hkeys.
  { intros c Hc. apply Hcols. by apply final_keys. }
  assert (∀ o, o ∈ sorted_origins [ia] ++ sorted_origins [ib] →
               o ∈ origins_of [ia; ib]) as Horig.
  { intros o. by rewrite !sorted_origins_perm, origins_of_two. }
  unfold remerge. rewrite sort_values_Ok.
  - eexists. split; [reflexivity|]. cbn [columns rows]. split; [|split].
    + rewrite rows_concat_separate. fold U.
      rewrite stable_sort_fmap.
      rewrite (stable_sort_ext _ origin_leb).
      2:{ intros o1 o2 _ _. unfold origin_leb.
          apply row_leb_cells; intros c Hc;
            by rewrite cell_separate_row, cell_origin_row by auto. }
      rewrite sorted_origins_two, rows_final_origins, <- !list_fmap_compose.
      apply list_fmap_ext. intros i o Ho. unfold compose.
      apply delete_week_separate; [|done].
      apply list_elem_of_lookup_2 in Ho.
      rewrite sorted_origins_perm in Ho. by apply elem_of_origins_of in Ho as [? _].
    + rewrite concat_frames_two. cbn [columns]. fold U.
      apply NoDup_Permutation;
        [apply NoDup_columns_final|apply NoDup_unique|].
      intros c. by rewrite Hcols.
    + by rewrite concat_frames_two.
  - rewrite concat_frames_two. cbn [columns]. fold U.
    apply Forall_forall. auto.
  - apply Forall_forall. intros c Hc. apply homogeneous_true_iff.
    unfold column. rewrite rows_concat_separate. fold U.
    intros x y Hx Hy.
    apply list_elem_of_fmap in Hx as (r1 & -> & Hr1).
    apply list_elem_of_fmap in Hr1 as (o1 & -> & Ho1).
    apply list_elem_of_fmap in Hy as (r2 & -> & Hr2).
    apply list_elem_of_fmap in Hr2 as (o2 & -> & Ho2).
    rewrite !cell_separate_row by auto.
    pose proof (homogeneous_keys _ c Hne Hh Hc) as Hhc.
    rewrite homogeneous_true_iff in Hhc.
    apply Hhc; apply origin_cell_in_column; auto.
Qed.

Lemma sample_returns_ios :
  returns [("iOS", 1%nat)] sample_state sample_out_ios.
Proof.
  exists 6%nat,
    (run_flexible_cohort_analysis [("iOS", 1%nat)] sample_state).2.
  split; vm_compute; reflexivity.
Defined.

Lemma sample_returns_android :
  returns [("Android", 0%nat)] sample_state sample_out_android.
Proof.
  exists 6%nat,
    (run_flexible_cohort_analysis [("Android", 0%nat)] sample_state).2.
  split; vm_compute; reflexivity.
Defined.

Lemma C8_merge_separately_witness :
  ∃ T', remerge sample_out_ios sample_out_android = Ok T'
        ∧ delete "Week Number" <$> rows sample_out
          = delete "Week Number" <$> rows T'
        ∧ columns sample_out ≡ₚ columns T'
        ∧ columns T'
          = unique (columns sample_out_ios ++ columns sample_out_android).
Proof.
  apply (C8_merge_separately
           sample_dict [("iOS", 1%nat)] [("Android", 0%nat)]
           sample_state sample_state sample_state
           ("iOS", sample_ios) ("Android", sample_android)).
  - reflexivity.
  - exact sample_returns.
  - reflexivity.
  - exact sample_returns_ios.
  - reflexivity.
  - exact sample_returns_android.
Defined.

(** The columns of the two tables can stand in two orders. *)
Lemma sample_column_orders :
  columns sample_out
  = ["Acquisition Week"; "Week Number"; "OS"; "Payout Total (€)"; "Margin";
     "Week 8"]
  ∧ unique (columns sample_out_ios ++ columns sample_out_android)
    = ["Acquisition Week"; "Week Number"; "OS"; "Margin"; "Payout Total (€)";
       "Week 8"].
Proof. split; vm_compute; reflexivity. Qed.

(** C8 as the specification states it fails: the week numbers are
    ranks among the dates of one merge, so a row merged alone can get
    another [Week Number] than merged with the other dataset, and no
    reordering makes the two tables equal. *)
Lemma C8_week_number_counterexample :
  resolve (heap sample_state) sample_dict
  = Some [("iOS", sample_ios); ("Android", sample_android)]
  ∧ returns sample_dict sample_state sample_out
  ∧ returns [("iOS", 1%nat)] sample_state sample_out_ios
  ∧ returns [("Android", 0%nat)] sample_state sample_out_android
  ∧ ∃ T', remerge sample_out_ios sample_out_android = Ok T'
          ∧ column "Week Number" sample_out
            = [VStr "Week 1"; VStr "Week 1"; VStr "Week 1"; VStr "Week 2";
               VStr "Week 3"]
          ∧ column "Week Number" T'
            = [VStr "Week 1"; VStr "Week 1"; VStr "Week 1"; VStr "Week 2";
               VStr "Week 2"]
          ∧ ¬ (rows sample_out ≡ₚ rows T').
Proof.
  split; [reflexivity|]. split; [exact sample_returns|].
  split; [exact sample_returns_ios|]. split; [exact sample_returns_android|].
  eexists. split; [vm_compute; reflexivity|].
  split; [vm_compute; reflexivity|]. split; [vm_compute; reflexivity|].
  intros Hp.
  apply (fmap_Permutation (λ r, cell r "Week Number")) in Hp.
  assert (VStr "Week 3" ∈ (λ r, cell r "Week Number") <$> rows sample_out)
    as Hin.
  { apply list_elem_of_In. vm_compute. tauto. }
  rewrite Hp in Hin. apply list_elem_of_In in Hin. vm_compute in Hin.
  intuition discriminate.
Qed.

(** ** Datasets of which some lack a column *)

Lemma no_date_column inputs :
  "Acquisition Week" ∈ columns (combined inputs)
  ↔ Exists (λ input, "Acquisition Week" ∈ columns input.2) inputs.
Proof.
  rewrite columns_combined, Exists_exists. split.
  - intros (input & Hin & [?|Hc]); [done|eauto].
  - intros (input & Hin & Hc). eauto.
Qed.

Lemma py_sorted_text_missing l s :
  StronglySorted value_lt l → VStr s ∈ l → VMissing ∈ l →
  py_sorted l = Raise TypeError.
Proof.
  intros Hl. revert s. induction Hl as [|x l Hl IH Hx]; intros s Hs Hm.
  { by apply elem_of_nil in Hs. }
  rewrite Forall_forall in Hx.
  assert (VMissing ∈ l) as Hm'.
  { apply elem_of_cons in Hm as [<-|Hm]; [|done].
    apply elem_of_cons in Hs as [?|Hs]; [done|]. by apply Hx in Hs. }
  cbn [py_sorted].
  apply elem_of_cons in Hs as [<-|Hs]; [|by rewrite (IH s)].
  destruct (py_sorted_ascending l Hl) as [E|E]; rewrite E; [|done].
  cbn [mbind res_bind]. destruct l as [|y l]; [by apply elem_of_nil in Hm'|].
  cbn [py_insert].
  assert (value_lt (VStr s) y) as Hy by (apply Hx; left).
  destruct y as [n|n|t|]; try done.
  rewrite (IH t) in E; [done|left|done].
Qed.

Lemma column_week_cells inputs :
  column "Acquisition Week" (combined inputs) = week_cells inputs.
Proof.
  unfold column, week_cells.
  rewrite rows_combined_origins, <- list_fmap_compose.
  apply list_fmap_ext. intros i o Ho.
  apply list_elem_of_lookup_2, elem_of_origins_of in Ho as [Ho _].
  unfold compose. by apply cell_combine_row.
Qed.

Lemma elem_of_dates_of inputs v : v ∈ dates_of inputs ↔ v ∈ week_cells inputs.
Proof.
  unfold dates_of. rewrite elem_of_unique, <- column_week_cells.
  unfold column. by rewrite (sorted_rows_perm inputs).
Qed.

Lemma orderable_subseteq l l' :
  (∀ v, v ∈ l' → v ∈ l) → orderable l → orderable l'.
Proof.
  intros Hsub [H|[H|H]]; [left|right; left|right; right];
    rewrite Forall_forall in H; apply Forall_forall; auto.
Qed.

Lemma orderable_same_kind l x y :
  orderable l → x ∈ l → y ∈ l → same_kind x y = true.
Proof.
  intros [H|[H|H]] Hx Hy; rewrite Forall_forall in H.
  - by destruct (H x Hx) as [[? ->]| ->], (H y Hy) as [[? ->]| ->].
  - by destruct (H x Hx) as [[? ->]| ->], (H y Hy) as [[? ->]| ->].
  - by destruct (H x Hx) as [? ->], (H y Hy) as [? ->].
Qed.

Lemma orderable_py_lt l x y :
  orderable l → x ∈ l → y ∈ l → ∃ b, py_lt x y = Ok b.
Proof.
  intros [H|[H|H]] Hx Hy; rewrite Forall_forall in H.
  - destruct (H x Hx) as [[? ->]| ->], (H y Hy) as [[? ->]| ->]; simpl; eauto.
  - destruct (H x Hx) as [[? ->]| ->], (H y Hy) as [[? ->]| ->]; simpl; eauto.
  - destruct (H x Hx) as [? ->], (H y Hy) as [? ->]; simpl; eauto.
Qed.

(** [sorted] returns an ascending list of orderable cells as it is. *)
Lemma py_sorted_orderable l :
  orderable l → StronglySorted value_lt l → py_sorted l = Ok l.
Proof.
  intros Ho Hs. induction Hs as [|x l Hl IH Hx]; [done|].
  cbn [py_sorted]. rewrite IH.
  2:{ eapply orderable_subseteq; [|done]. intros v Hv. by right. }
  cbn [mbind res_bind].
  destruct (py_insert_ascending x l Hx) as [E|E]; [done|].
  destruct l as [|y l]; [done|]. cbn [py_insert] in E.
  destruct (orderable_py_lt _ y x Ho) as [b Hb]; [right; left|left|].
  rewrite Hb in E. cbn [mbind res_bind] in E. destruct b; [|done].
  apply py_lt_true in Hb. apply Forall_cons in Hx as [Hx _].
  by destruct (value_lt_asym _ _ Hx).
Qed.

(** Cells of one kind, of which no string stands with a missing cell,
    are orderable. *)
Lemma orderable_intro l :
  (∀ x y, x ∈ l → y ∈ l → same_kind x y = true) →
  (∀ s, VStr s ∈ l → VMissing ∉ l) →
  orderable l.
Proof.
  intros Hk Hs.
  destruct (decide (Forall (λ v, v = VMissing) l)) as [Hm|Hm].
  { left. eapply Forall_impl; [done|]. auto. }
  apply not_Forall_Exists in Hm; [|apply _].
  apply Exists_exists in Hm as (x & Hx & Hne).
  destruct x as [n|n|s|]; [| | |by destruct Hne].
  - right; left. apply Forall_forall. intros y Hy.
    specialize (Hk _ _ Hx Hy). destruct y; try done; [left; by eexists|by right].
  - left. apply Forall_forall. intros y Hy.
    specialize (Hk _ _ Hx Hy). destruct y; try done; [left; by eexists|by right].
  - right; right. apply Forall_forall. intros y Hy.
    specialize (Hk _ _ Hx Hy). destruct y; try done; [by eexists|].
    by destruct (Hs s Hx).
Qed.

(** On datasets of which one has the [Acquisition Week] column, with
    cells that can be put in order, the function returns. *)
Lemma orderable_returns d st inputs :
  d ≠ [] → resolve (heap st) d = Some inputs →
  Exists (λ input, "Acquisition Week" ∈ columns input.2) inputs →
  orderable (week_cells inputs) →
  returns d st (final_frame inputs).
Proof.
  intros Hd Hres HA Ho. destruct st as [h o]. cbn [heap] in Hres.
  destruct (run_Ok d h o inputs) as (l & ext & e & Hrun & Hl); [done..| | | |].
  - by apply no_date_column.
  - rewrite column_week_cells. apply homogeneous_true_iff.
    intros x y. by apply orderable_same_kind.
  - apply py_sorted_orderable; [|apply dates_of_ascending].
    eapply orderable_subseteq; [|done]. intros v. by rewrite elem_of_dates_of.
  - by exists l, (mkState (h ++ ext) (o ++ [e])).
Qed.

Lemma returns_orderable d st inputs out :
  resolve (heap st) d = Some inputs → returns d st out →
  Exists (λ input, "Acquisition Week" ∈ columns input.2) inputs
  ∧ orderable (week_cells inputs).
Proof.
  intros Hres Hret.
  destruct (returns_final _ _ _ _ Hres Hret) as (Hne & HA & Hh & Hs & _).
  split; [by apply no_date_column|].
  rewrite column_week_cells, homogeneous_true_iff in Hh.
  apply orderable_intro; [done|]. intros s Hstr Hm.
  rewrite (py_sorted_text_missing _ s) in Hs;
    [done|apply dates_of_ascending|by apply elem_of_dates_of..].
Qed.

(** C5 (as amended). On a non-empty mapping of which at least one
    dataset has the [Acquisition Week] column, and whose
    [Acquisition Week] cells can be put in order (the cell of a row
    whose dataset lacks the column counts as missing), the absence of
    any column of the allow-list from any dataset, [Acquisition Week]
    included, is not fatal: the function returns a table, with the
    allow-list columns that some dataset has (and the two added
    columns), whose rows are the rows of the datasets, a row having a
    missing cell in each returned column that its dataset lacks.  On no
    other non-empty mapping does the function return a table. *)
Theorem C5_missing_columns d st inputs :
  d ≠ [] → resolve (heap st) d = Some inputs →
  (Exists (λ input, "Acquisition Week" ∈ columns input.2) inputs →
   orderable (week_cells inputs) →
   ∃ out origins,
     returns d st out
     ∧ columns out = filter (present inputs) target_columns
     ∧ origins ≡ₚ origins_of inputs
     ∧ Forall2 (λ r o,
         ∀ c, c ∈ columns out → c ≠ "Week Number" → c ≠ "OS" →
              (c ∈ columns o.1.2 → cell r c = cell o.2 c)
              ∧ (c ∉ columns o.1.2 → cell r c = VMissing))
         (rows out) origins)
  ∧ ((∃ out, returns d st out) →
     Exists (λ input, "Acquisition Week" ∈ columns input.2) inputs
     ∧ orderable (week_cells inputs)).
Proof.
  intros Hd Hres. split; [|intros [out Hret]; by eapply returns_orderable].
  intros HA Ho. exists (final_frame inputs), (sorted_origins inputs).
  split; [by apply orderable_returns|].
  split; [apply columns_final; by eapply resolve_nonempty|].
  split; [apply sorted_origins_perm|].
  rewrite rows_final_origins. apply Forall2_fmap_l.
  apply Forall_Forall2_diag, Forall_forall. intros o Hin.
  cbv beta delta [compose].
  rewrite sorted_origins_perm in Hin. apply elem_of_origins_of in Hin as [Hin _].
  intros c Hc Hw HOS. rewrite cell_final_origin by done.
  unfold origin_cell. rewrite decide_False by done.
  split; intros Hcol; [by rewrite decide_True|by rewrite decide_False].
Qed.

Lemma C5_missing_columns_witness :
  ("Acquisition Week" ∉ columns sample_undated)
  ∧ ∃ out origins,
      returns [("Android", 0%nat); ("Web", 2%nat)] sample_state out
      ∧ columns out = filter (present sample_partial_inputs) target_columns
      ∧ origins ≡ₚ origins_of sample_partial_inputs
      ∧ Forall2 (λ r o,
          ∀ c, c ∈ columns out → c ≠ "Week Number" → c ≠ "OS" →
               (c ∈ columns o.1.2 → cell r c = cell o.2 c)
               ∧ (c ∉ columns o.1.2 → cell r c = VMissing))
          (rows out) origins.
Proof.
  split.
  { intros H%list_elem_of_In. vm_compute in H. intuition discriminate. }
  apply (C5_missing_columns [("Android", 0%nat); ("Web", 2%nat)]
           sample_state sample_partial_inputs).
  - discriminate.
  - reflexivity.
  - apply Exists_cons_hd, list_elem_of_In. vm_compute. tauto.
  - left. unfold week_cells.
    apply Forall_cons. split; [left; by eexists|].
    apply Forall_cons. split; [left; by eexists|].
    apply Forall_cons. split; [by right|]. apply Forall_nil_2.
Defined.

(** * Further properties of the function *)

(** ** The whole effect of a call that returns *)

Lemma run_full d h o inputs :
  d ≠ [] → resolve h d = Some inputs →
  "Acquisition Week" ∈ columns (combined inputs) →
  homogeneous (column "Acquisition Week" (combined inputs)) = true →
  py_sorted (dates_of inputs) = Ok (dates_of inputs) →
  ∃ created e,
    chart (final_frame inputs) = Ok (created, e)
    ∧ run_flexible_cohort_analysis d (mkState h o)
      = (Ok (RFrame (length h + length d + 2)%nat),
         mkState (h ++ (tag <$> inputs)
                    ++ [combined inputs; weeked_frame inputs;
                        final_frame inputs] ++ created)
                 (o ++ [e])).
Proof.
  intros Hd Hres HA Hh Hs. pose proof (resolve_nonempty _ _ _ Hd Hres) as Hne.
  run_prefix d inputs Hres.
  erewrite bind_Ok.
  2:{ rewrite (lift_alloc_run _ _ _ _ _ (lookup_last _ _)).
      rewrite sort_values_combined by done.
      rewrite decide_True, Hh by done. reflexivity. }
  erewrite bind_Ok.
  2:{ rewrite (df_getitem_run _ _ _ _ _ (lookup_last _ _)).
      unfold getitem. cbn [columns]. rewrite decide_True by done. reflexivity. }
  change (column "Acquisition Week" _) with
    ((λ r, cell r "Acquisition Week") <$> sorted_rows inputs).
  fold (dates_of inputs). rewrite Hs.
  erewrite bind_Ok by apply lift_run.
  erewrite bind_Ok.
  2:{ rewrite (df_getitem_run _ _ _ _ _ (lookup_last _ _)).
      unfold getitem. cbn [columns]. rewrite decide_True by done. reflexivity. }
  erewrite bind_Ok by (apply df_setitem_series_run, lookup_last).
  rewrite insert_last.
  change (column "Acquisition Week" _) with
    ((λ r, cell r "Acquisition Week") <$> sorted_rows inputs).
  fold (add_week_number (dates_of inputs)
          ((λ r, cell r "Acquisition Week") <$> sorted_rows inputs)
          {| columns := columns (combined inputs); rows := sorted_rows inputs |}).
  rewrite add_week_number_sorted. fold (weeked_frame inputs).
  erewrite bind_Ok by (apply df_columns_run, lookup_last).
  cbn [columns weeked_frame]. unfold df_select.
  erewrite bind_Ok.
  2:{ rewrite (lift_alloc_run _ _ _ _ _ (lookup_last _ _)).
      unfold weeked_frame. rewrite select_weeked. reflexivity. }
  erewrite bind_Ok by (apply df_columns_run, lookup_last).
  fold (cols_to_melt (final_frame inputs)).
  assert (length (((h ++ (tag <$> inputs)) ++ [combined inputs])
                    ++ [weeked_frame inputs])
          = (length h + length (tag <$> inputs) + 2)%nat) as Hlen.
  { rewrite !length_app. simpl. lia. }
  unfold weeked_frame in Hlen.
  unfold chart. case_bool_decide as Hm.
  - destruct (melt_final inputs Hne) as [df_long Hlong].
    fold (cols_to_melt (final_frame inputs)) in Hlong. rewrite Hlong.
    exists [df_long], (Shown (box_figure df_long)). split; [done|].
    unfold df_melt. erewrite bind_Ok.
    2:{ erewrite bind_Ok.
        2:{ rewrite (lift_alloc_run _ _ _ _ _ (lookup_last _ _)).
            rewrite Hlong. reflexivity. }
        erewrite bind_Ok.
        2:{ unfold px_box.
            erewrite bind_Ok by (apply deref_run, lookup_last).
            reflexivity. }
        reflexivity. }
    unfold mret, M_ret. rewrite Hlen, <- !app_assoc. reflexivity.
  - exists [], (Printed no_weeks_warning). split; [done|].
    erewrite bind_Ok by reflexivity.
    unfold mret, M_ret. rewrite Hlen, <- !app_assoc. reflexivity.
Qed.

(** ** How a call ends *)

(** X1. On a non-empty mapping of datasets a call ends in one of three
    ways: it returns a table, it raises [KeyError] for
    [Acquisition Week], or it raises [TypeError]; in the last two cases
    nothing was printed or shown.  It never returns the message of the
    empty-input check and never raises anything else. *)
Theorem X1_outcomes d st inputs :
  d ≠ [] → resolve (heap st) d = Some inputs →
  (∃ df_final, (run_flexible_cohort_analysis d st).1 = Ok (RFrame df_final))
  ∨ ((run_flexible_cohort_analysis d st).1 = Raise (KeyError "Acquisition Week")
     ∧ output (run_flexible_cohort_analysis d st).2 = output st)
  ∨ ((run_flexible_cohort_analysis d st).1 = Raise TypeError
     ∧ output (run_flexible_cohort_analysis d st).2 = output st).
Proof.
  intros Hd Hres. destruct st as [h o]. cbn [heap output] in *.
  destruct (decide ("Acquisition Week" ∈ columns (combined inputs))) as [HA|HA].
  2:{ destruct (run_KeyError d h o inputs) as [ext ->]; auto. }
  destruct (homogeneous (column "Acquisition Week" (combined inputs))) eqn:Hh.
  2:{ destruct (run_TypeError_kinds d h o inputs) as [ext ->]; auto. }
  destruct (py_sorted_dates_of inputs) as [Hs|Hs].
  - destruct (run_Ok d h o inputs) as (l & ext & e & -> & _); eauto.
  - destruct (run_TypeError_sorted d h o inputs) as [ext ->]; auto.
Qed.

Lemma X1_outcomes_witness :
  (∃ df_final,
     (run_flexible_cohort_analysis sample_dict sample_state).1
     = Ok (RFrame df_final))
  ∨ ((run_flexible_cohort_analysis sample_dict sample_state).1
     = Raise (KeyError "Acquisition Week")
     ∧ output (run_flexible_cohort_analysis sample_dict sample_state).2
       = output sample_state)
  ∨ ((run_flexible_cohort_analysis sample_dict sample_state).1 = Raise TypeError
     ∧ output (run_flexible_cohort_analysis sample_dict sample_state).2
       = output sample_state).
Proof.
  apply (X1_outcomes sample_dict sample_state sample_inputs).
  - discriminate.
  - reflexivity.
Defined.

(** X2. On a non-empty mapping the call raises [KeyError] exactly when
    no dataset has an [Acquisition Week] column, and the key it reports
    is then [Acquisition Week]: a missing [OS] or any other missing
    column never raises [KeyError]. *)
Theorem X2_key_error d st inputs key :
  d ≠ [] → resolve (heap st) d = Some inputs →
  (run_flexible_cohort_analysis d st).1 = Raise (KeyError key)
  ↔ key = "Acquisition Week"
    ∧ Forall (λ input, "Acquisition Week" ∉ columns input.2) inputs.
Proof.
  intros Hd Hres. destruct st as [h o]. cbn [heap output] in *.
  assert (Forall (λ input, "Acquisition Week" ∉ columns input.2) inputs
          ↔ "Acquisition Week" ∉ columns (combined inputs)) as ->.
  { rewrite no_date_column, Forall_forall, Exists_exists. split.
    - intros H (input & Hin & Hc). by apply (H input).
    - intros H input Hin Hc. apply H. eauto. }
  destruct (decide ("Acquisition Week" ∈ columns (combined inputs))) as [HA|HA].
  2:{ destruct (run_KeyError d h o inputs) as [ext ->]; [done..|]. simpl.
      split; [by intros [= <-]|by intros [-> _]]. }
  split; [|tauto]. intros Hrun. exfalso.
  destruct (homogeneous (column "Acquisition Week" (combined inputs))) eqn:Hh.
  2:{ destruct (run_TypeError_kinds d h o inputs) as [ext H]; [done..|].
      rewrite H in Hrun. done. }
  destruct (py_sorted_dates_of inputs) as [Hs|Hs].
  - destruct (run_Ok d h o inputs) as (l & ext & e & H & _); [done..|].
    rewrite H in Hrun. done.
  - destruct (run_TypeError_sorted d h o inputs) as [ext H]; [done..|].
    rewrite H in Hrun. done.
Qed.

Lemma X2_key_error_witness :
  (run_flexible_cohort_analysis [("Web", 2%nat)] sample_state).1
  = Raise (KeyError "Acquisition Week")
  ↔ "Acquisition Week" = "Acquisition Week"
    ∧ Forall (λ input, "Acquisition Week" ∉ columns input.2)
        [("Web", sample_undated)].
Proof.
  apply (X2_key_error [("Web", 2%nat)] sample_state [("Web", sample_undated)]).
  - discriminate.
  - reflexivity.
Defined.

Lemma origin_date_column inputs o :
  o ∈ origins_of inputs →
  origin_cell o.1 o.2 "Acquisition Week" ≠ VMissing →
  "Acquisition Week" ∈ columns (combined inputs).
Proof.
  intros [Ho _]%elem_of_origins_of Hc. apply columns_combined.
  exists o.1. split; [done|]. right. unfold origin_cell in Hc.
  rewrite decide_False in Hc by done. by destruct (decide _).
Qed.

Lemma same_kind_missing a b : same_kind a b = false → a ≠ VMissing.
Proof. by destruct a. Qed.

(** X3. When two rows of the datasets have [Acquisition Week] cells of
    two different kinds (say a date and a string), the call raises
    [TypeError]. *)
Theorem X3_mixed_kinds d st inputs o1 o2 :
  d ≠ [] → resolve (heap st) d = Some inputs →
  o1 ∈ origins_of inputs → o2 ∈ origins_of inputs →
  same_kind (origin_cell o1.1 o1.2 "Acquisition Week")
            (origin_cell o2.1 o2.2 "Acquisition Week") = false →
  (run_flexible_cohort_analysis d st).1 = Raise TypeError.
Proof.
  intros Hd Hres Ho1 Ho2 Hk. destruct st as [h o]. cbn [heap] in Hres.
  pose proof (origin_date_column _ _ Ho1 (same_kind_missing _ _ Hk)) as HA.
  destruct (run_TypeError_kinds d h o inputs) as [ext ->]; [done..| |done].
  apply not_true_is_false. intros Hh. rewrite homogeneous_true_iff in Hh.
  rewrite Hh in Hk; [done|by apply origin_cell_in_column..].
Qed.

Lemma X3_mixed_kinds_witness :
  (run_flexible_cohort_analysis [("Android", 0%nat); ("Text", 1%nat)]
     sample_state2).1 = Raise TypeError.
Proof.
  apply (X3_mixed_kinds [("Android", 0%nat); ("Text", 1%nat)] sample_state2
           [("Android", sample_android); ("Text", sample_text)]
           (("Android", sample_android),
            row_of [("Acquisition Week", VDate 20240108); ("OS", VStr "legacy");
                    ("Week 8", VNum 100); ("Payout Total (€)", VNum 7);
                    ("Notes", VStr "n1")])
           (("Text", sample_text),
            row_of [("Acquisition Week", VStr "2024-01-08"); ("Week 8", VNum 1)])).
  - discriminate.
  - reflexivity.
  - apply elem_of_origins_of. split; left.
  - apply elem_of_origins_of. split; [right; left|left].
  - vm_compute. reflexivity.
Defined.

(** X4. When the [Acquisition Week] cell of one row is a string and
    that of another row is missing (its dataset lacks the column, or
    the cell is empty), the call raises [TypeError]: Python cannot
    order a string and NaN. *)
Theorem X4_text_and_missing_dates d st inputs o1 o2 s :
  d ≠ [] → resolve (heap st) d = Some inputs →
  o1 ∈ origins_of inputs → o2 ∈ origins_of inputs →
  origin_cell o1.1 o1.2 "Acquisition Week" = VStr s →
  origin_cell o2.1 o2.2 "Acquisition Week" = VMissing →
  (run_flexible_cohort_analysis d st).1 = Raise TypeError.
Proof.
  intros Hd Hres Ho1 Ho2 H1 H2. destruct st as [h o]. cbn [heap] in Hres.
  assert ("Acquisition Week" ∈ columns (combined inputs)) as HA.
  { apply (origin_date_column _ o1); [done|]. by rewrite H1. }
  destruct (homogeneous (column "Acquisition Week" (combined inputs))) eqn:Hh.
  2:{ by destruct (run_TypeError_kinds d h o inputs) as [ext ->]. }
  destruct (run_TypeError_sorted d h o inputs) as [ext ->]; [done..| |done].
  assert (∀ o', o' ∈ origins_of inputs →
            origin_cell o'.1 o'.2 "Acquisition Week" ∈ dates_of inputs) as Hin.
  { intros o' Ho'. unfold dates_of. apply elem_of_unique.
    pose proof (origin_cell_in_column inputs o' "Acquisition Week" Ho') as Hc.
    unfold column in Hc. by rewrite <- (sorted_rows_perm inputs) in Hc. }
  apply (py_sorted_text_missing _ s); [apply dates_of_ascending|..].
  - rewrite <- H1. by apply Hin.
  - rewrite <- H2. by apply Hin.
Qed.

Lemma X4_text_and_missing_dates_witness :
  (run_flexible_cohort_analysis [("Text", 1%nat); ("Web", 2%nat)]
     sample_state2).1 = Raise TypeError.
Proof.
  apply (X4_text_and_missing_dates [("Text", 1%nat); ("Web", 2%nat)]
           sample_state2
           [("Text", sample_text); ("Web", sample_undated)]
           (("Text", sample_text),
            row_of [("Acquisition Week", VStr "2024-01-08"); ("Week 8", VNum 1)])
           (("Web", sample_undated),
            row_of [("Week 8", VNum 100); ("Margin", VNum 3)])
           "2024-01-08").
  - discriminate.
  - reflexivity.
  - apply elem_of_origins_of. split; left.
  - apply elem_of_origins_of. split; [right; left|left].
  - vm_compute. reflexivity.
  - vm_compute. reflexivity.
Defined.

(** ** The chart *)

Lemma run_returns_full d h o inputs df_final st' :
  resolve h d = Some inputs →
  run_flexible_cohort_analysis d (mkState h o) = (Ok (RFrame df_final), st') →
  ∃ created e,
    chart (final_frame inputs) = Ok (created, e)
    ∧ df_final = (length h + length d + 2)%nat
    ∧ st' = mkState (h ++ (tag <$> inputs)
                       ++ [combined inputs; weeked_frame inputs;
                           final_frame inputs] ++ created)
                    (o ++ [e]).
Proof.
  intros Hres Hrun.
  destruct (run_returns d (mkState h o) inputs df_final st' Hres Hrun)
    as (Hne & HA & Hh & Hs & _).
  assert (d ≠ []) as Hd by (intros ->; by injection Hres as <-).
  destruct (run_full d h o inputs Hd Hres HA Hh Hs) as (created & e & Hc & H).
  rewrite Hrun in H. injection H as -> ->. eauto.
Qed.

Lemma filter_ext_in {A} (P Q : A → Prop) `{∀ x, Decision (P x)}
    `{∀ x, Decision (Q x)} (l : list A) :
  (∀ x, x ∈ l → P x ↔ Q x) → filter P l = filter Q l.
Proof.
  induction l as [|x l IH]; intros Hext; [done|].
  rewrite !filter_cons, IH by (intros y Hy; apply Hext; by right).
  pose proof (Hext x (list_elem_of_here _ _)) as Hx.
  destruct (decide (P x)) as [HP|HP], (decide (Q x)) as [HQ|HQ];
    [done|tauto|tauto|done].
Qed.

Lemma weeks_in_target c : c ∈ weeks_of_interest → c ∈ target_columns.
Proof. unfold target_columns. intros H. apply elem_of_app. by right. Qed.

Lemma weeks_not_added c :
  c ∈ weeks_of_interest → c ≠ "Week Number" ∧ c ≠ "OS".
Proof.
  unfold weeks_of_interest. rewrite !elem_of_cons, elem_of_nil.
  intros H. split; intros ->; repeat destruct H as [H|H]; done.
Qed.

Lemma cols_to_melt_final inputs :
  inputs ≠ [] → cols_to_melt (final_frame inputs) = checkpoints_present inputs.
Proof.
  intros Hne. unfold cols_to_melt, checkpoints_present.
  apply filter_ext_in. intros c Hc.
  rewrite elem_of_columns_final by done. unfold present.
  destruct (weeks_not_added c Hc). pose proof (weeks_in_target c Hc). tauto.
Qed.

Lemma melt_final_rows inputs df_long :
  inputs ≠ [] →
  melt ["OS"] (cols_to_melt (final_frame inputs)) "Cohort_Period" "Value (€)"
    (final_frame inputs) = Ok df_long →
  columns df_long = ["OS"; "Cohort_Period"; "Value (€)"]
  ∧ rows df_long
    = checkpoints_present inputs
      ≫= (λ c, long_record c <$> rows (final_frame inputs)).
Proof.
  intros Hne. unfold melt. destruct (list_find _ _); [by destruct p|].
  intros [= <-]. cbn [columns rows]. split; [done|].
  rewrite cols_to_melt_final by done. apply list_bind_ext; [|done].
  intros c. apply list_fmap_ext. intros i r _. unfold long_record.
  do 2 f_equal. unfold reindex. cbn [fmap list_fmap list_to_map foldr].
  rewrite decide_True by (by apply OS_in_final). by rewrite insert_empty.
Qed.

(** X5. A call that returns emits exactly one thing.  When no dataset
    has any of the nine checkpoint columns it prints the warning line
    and shows no figure; otherwise it shows one box plot, grouped, with
    the nine checkpoint labels as the category order of the x axis, and
    prints nothing. *)
Theorem X5_chart_or_warning d st inputs df_final st' :
  resolve (heap st) d = Some inputs →
  run_flexible_cohort_analysis d st = (Ok (RFrame df_final), st') →
  (checkpoints_present inputs = [] →
     output st' = output st ++ [Printed no_weeks_warning])
  ∧ (checkpoints_present inputs ≠ [] →
     ∃ df_long, output st' = output st ++ [Shown (box_figure df_long)]).
Proof.
  intros Hres Hrun.
  destruct (run_returns _ _ _ _ _ Hres Hrun) as (Hne & _).
  destruct st as [h o]. cbn [heap output] in *.
  destruct (run_returns_full _ _ _ _ _ _ Hres Hrun)
    as (created & e & Hc & _ & ->).
  cbn [output]. unfold chart in Hc. rewrite cols_to_melt_final in Hc by done.
  case_bool_decide as Hm.
  - split; [done|]. intros _.
    destruct (melt _ _ _ _ _) as [df_long| |]; [|done..].
    injection Hc as <- <-. eauto.
  - split; [|done]. intros _. by injection Hc as <- <-.
Qed.

Lemma sample_run :
  run_flexible_cohort_analysis sample_dict sample_state
  = (Ok (RFrame 7%nat),
     (run_flexible_cohort_analysis sample_dict sample_state).2).
Proof. vm_compute. reflexivity. Defined.

Lemma X5_chart_or_warning_witness :
  (checkpoints_present sample_inputs = [] →
     output (run_flexible_cohort_analysis sample_dict sample_state).2
     = output sample_state ++ [Printed no_weeks_warning])
  ∧ (checkpoints_present sample_inputs ≠ [] →
     ∃ df_long,
       output (run_flexible_cohort_analysis sample_dict sample_state).2
       = output sample_state ++ [Shown (box_figure df_long)]).
Proof.
  apply (X5_chart_or_warning sample_dict sample_state sample_inputs 7%nat).
  - reflexivity.
  - exact sample_run.
Defined.

Lemma length_bind_const {A B} (f : A → list B) (l : list A) n :
  (∀ x, length (f x) = n) → length (l ≫= f) = (length l * n)%nat.
Proof.
  intros Hf. induction l as [|x l IH]; [done|].
  rewrite bind_cons, length_app, Hf, IH. simpl. lia.
Qed.

(** X6. The data of the figure a call shows are the long form of the
    returned table: its columns are [OS], [Cohort_Period] and
    [Value (€)], and it has one record for every checkpoint column that
    some dataset has and every row of the returned table, column by
    column in the fixed order of the checkpoints and, within a column,
    in the order of the rows, with the row's [OS] and its cell in that
    column.  So it has (number of such columns) × (number of rows of all
    datasets) records. *)
Theorem X6_chart_data d st inputs df_final st' df_long out :
  resolve (heap st) d = Some inputs →
  run_flexible_cohort_analysis d st = (Ok (RFrame df_final), st') →
  output st' = output st ++ [Shown (box_figure df_long)] →
  heap st' !! df_final = Some out →
  columns df_long = ["OS"; "Cohort_Period"; "Value (€)"]
  ∧ rows df_long
    = checkpoints_present inputs ≫= (λ c, long_record c <$> rows out)
  ∧ length (rows df_long)
    = (length (checkpoints_present inputs)
       * sum_list_with (λ input, row_count input.2) inputs)%nat.
Proof.
  intros Hres Hrun Hout Hl.
  destruct (run_returns _ _ _ _ _ Hres Hrun) as (Hne & _ & _ & _ & Hfin).
  rewrite Hfin in Hl. injection Hl as <-.
  destruct st as [h o]. cbn [heap output] in *.
  destruct (run_returns_full _ _ _ _ _ _ Hres Hrun)
    as (created & e & Hc & _ & ->).
  cbn [output] in Hout. apply app_inv_head in Hout. injection Hout as ->.
  unfold chart in Hc. case_bool_decide; [|done].
  destruct (melt _ _ _ _ _) as [df_long'| |] eqn:Hm; [|done..].
  injection Hc as _ Hfig. subst df_long'.
  destruct (melt_final_rows _ _ Hne Hm) as [Hcols Hrows].
  split; [done|]. split; [done|]. rewrite Hrows.
  rewrite (length_bind_const _ _ (row_count (final_frame inputs))).
  - f_equal. unfold row_count at 1, final_frame. cbn [rows].
    rewrite length_fmap. unfold sorted_rows.
    by rewrite stable_sort_length, length_rows_combined.
  - intros c. by rewrite length_fmap.
Qed.

Lemma X6_chart_data_witness :
  columns sample_long = ["OS"; "Cohort_Period"; "Value (€)"]
  ∧ rows sample_long
    = checkpoints_present sample_inputs
      ≫= (λ c, long_record c <$> rows sample_out)
  ∧ length (rows sample_long)
    = (length (checkpoints_present sample_inputs)
       * sum_list_with (λ input, row_count input.2) sample_inputs)%nat.
Proof.
  apply (X6_chart_data sample_dict sample_state sample_inputs 7%nat
           (run_flexible_cohort_analysis sample_dict sample_state).2).
  - reflexivity.
  - exact sample_run.
  - vm_compute. reflexivity.
  - vm_compute. reflexivity.
Defined.

(** ** The objects a call creates *)

(** X7. The table a call returns is a new object, not one the caller
    had.  With [k] datasets a call that returns has created [k+3]
    objects, and a fourth one (the long table) when it shows the chart;
    the first [k] of them are the copies of the datasets, in the order
    of the mapping, each with its label in [OS]. *)
Theorem X7_new_objects d st inputs df_final st' :
  resolve (heap st) d = Some inputs →
  run_flexible_cohort_analysis d st = (Ok (RFrame df_final), st') →
  heap st !! df_final = None
  ∧ length (heap st')
    = (length (heap st) + length d
       + if decide (checkpoints_present inputs = []) then 3 else 4)%nat
  ∧ ∀ i input, inputs !! i = Some input →
               heap st' !! (length (heap st) + i)%nat = Some (tag input).
Proof.
  intros Hres Hrun.
  destruct (run_returns _ _ _ _ _ Hres Hrun) as (Hne & _).
  destruct st as [h o]. cbn [heap output] in *.
  destruct (run_returns_full _ _ _ _ _ _ Hres Hrun)
    as (created & e & Hc & -> & ->).
  cbn [heap]. split; [apply lookup_ge_None; lia|]. split.
  - rewrite !length_app, length_fmap, (resolve_length _ _ _ Hres).
    unfold chart in Hc. rewrite cols_to_melt_final in Hc by done.
    case_bool_decide as Hm.
    + rewrite decide_False by done.
      destruct (melt _ _ _ _ _); [|done..]. injection Hc as <- _. simpl. lia.
    + rewrite decide_True by (by destruct (decide (checkpoints_present inputs = []))).
      injection Hc as <- _. simpl. lia.
  - intros i input Hi. rewrite lookup_app_r by lia.
    replace (length h + i - length h)%nat with i by lia.
    apply lookup_app_l_Some. by rewrite list_lookup_fmap, Hi.
Qed.

Lemma X7_new_objects_witness :
  heap sample_state !! 7%nat = None
  ∧ length (heap (run_flexible_cohort_analysis sample_dict sample_state).2)
    = (length (heap sample_state) + length sample_dict
       + if decide (checkpoints_present sample_inputs = []) then 3 else 4)%nat
  ∧ ∀ i input, sample_inputs !! i = Some input →
               heap (run_flexible_cohort_analysis sample_dict sample_state).2
               !! (length (heap sample_state) + i)%nat = Some (tag input).
Proof.
  apply (X7_new_objects sample_dict sample_state sample_inputs 7%nat).
  - reflexivity.
  - exact sample_run.
Defined.

(** ** Shape of the returned table *)

Lemma lookup_finish inputs r c :
  is_Some (finish inputs r !! c) ↔ c ∈ columns (final_frame inputs).
Proof.
  unfold finish, final_frame. cbn [columns]. rewrite lookup_reindex.
  destruct (decide (c ∈ filter _ target_columns)) as [Hc|Hc].
  - split; [done|]. intros _. eauto.
  - split; [|done]. by intros [? ?].
Qed.

(** X8. A returned table is well formed, whatever the shape of the
    datasets: no column label occurs twice, and every row has a cell,
    possibly a missing one, in exactly the returned columns. *)
Theorem X8_well_formed d st inputs out :
  resolve (heap st) d = Some inputs → returns d st out →
  NoDup (columns out)
  ∧ ∀ r, r ∈ rows out → ∀ c, is_Some (r !! c) ↔ c ∈ columns out.
Proof.
  intros Hres Hret.
  destruct (returns_final _ _ _ _ Hres Hret) as (_ & _ & _ & _ & ->).
  split.
  - unfold final_frame. cbn [columns].
    apply NoDup_filter, NoDup_target_columns.
  - intros r Hr c. unfold final_frame in Hr. cbn [rows] in Hr.
    apply list_elem_of_fmap in Hr as (r0 & -> & _). apply lookup_finish.
Qed.

Lemma X8_well_formed_witness :
  NoDup (columns sample_out)
  ∧ ∀ r, r ∈ rows sample_out →
         ∀ c, is_Some (r !! c) ↔ c ∈ columns sample_out.
Proof.
  apply (X8_well_formed sample_dict sample_state sample_inputs sample_out).
  - reflexivity.
  - exact sample_returns.
Defined.

(** ** The order of the mapping *)

Lemma returns_intro d st inputs :
  d ≠ [] → resolve (heap st) d = Some inputs →
  "Acquisition Week" ∈ columns (combined inputs) →
  homogeneous (column "Acquisition Week" (combined inputs)) = true →
  py_sorted (dates_of inputs) = Ok (dates_of inputs) →
  returns d st (final_frame inputs).
Proof.
  intros Hd Hres HA Hh Hs. destruct st as [h o]. cbn [heap] in Hres.
  destruct (run_Ok d h o inputs) as (l & ext & e & Hrun & Hl); [done..|].
  by exists l, (mkState (h ++ ext) (o ++ [e])).
Qed.

Lemma filter_bind {A B} (P : B → Prop) `{∀ x, Decision (P x)}
    (f : A → list B) (l : list A) :
  filter P (l ≫= f) = l ≫= (λ x, filter P (f x)).
Proof.
  induction l as [|x l IH]; [done|].
  by rewrite !bind_cons, filter_app, IH.
Qed.

(** A concatenation in which at most one part is not empty does not
    depend on the order of the parts. *)
Lemma bind_perm_single {A B} (f : A → list B) (l l' : list A) :
  NoDup l →
  (∀ x y, x ∈ l → y ∈ l → f x ≠ [] → f y ≠ [] → x = y) →
  l ≡ₚ l' → l ≫= f = l' ≫= f.
Proof.
  intros Hnd Hone Hp. induction Hp as [|x l l' Hp IH|x y l|l l' l'' Hp IH Hp' IH'].
  - done.
  - apply NoDup_cons in Hnd as [_ Hnd]. rewrite !bind_cons, IH; [done..|].
    intros a b Ha Hb. apply Hone; by right.
  - rewrite !bind_cons.
    destruct (f x) as [|bx fx] eqn:Ex; [done|].
    destruct (f y) as [|by' fy] eqn:Ey; [done|].
    apply NoDup_cons in Hnd as [Hy _]. destruct Hy.
    rewrite (Hone y x); [left|left|right; left|by rewrite Ey|by rewrite Ex].
  - rewrite IH by done. apply IH'.
    + by rewrite <- Hp.
    + intros a b Ha Hb. apply Hone; by rewrite Hp.
Qed.

Lemma same_label {A B} (l : list (A * B)) x y :
  NoDup l.*1 → x ∈ l → y ∈ l → x.1 = y.1 → x = y.
Proof.
  induction l as [|z l IH]; intros Hnd Hx Hy Heq.
  { by apply elem_of_nil in Hx. }
  rewrite fmap_cons in Hnd. apply NoDup_cons in Hnd as [Hz Hnd].
  apply elem_of_cons in Hx as [->|Hx]; apply elem_of_cons in Hy as [->|Hy].
  - done.
  - destruct Hz. rewrite Heq. apply list_elem_of_fmap. eauto.
  - destruct Hz. rewrite <- Heq. apply list_elem_of_fmap. eauto.
  - by apply IH.
Qed.

Lemma origin_key_label o : origin_key o !! 1%nat = Some (VStr o.1.1).
Proof. unfold origin_key, origin_cell. simpl. done. Qed.

Lemma nonempty_elem {A} (l : list A) : l ≠ [] → ∃ x, x ∈ l.
Proof. destruct l as [|x l]; [done|]. intros _. exists x. left. Qed.

Lemma origins_filter_label (z : string * DataFrame) k :
  filter (λ o, origin_key o = k) ((λ r, (z, r)) <$> rows z.2) ≠ [] →
  k !! 1%nat = Some (VStr z.1).
Proof.
  intros [o Ho]%nonempty_elem.
  apply list_elem_of_filter in Ho as [<- Ho].
  apply list_elem_of_fmap in Ho as (r & -> & _). apply origin_key_label.
Qed.

Lemma origins_filter_perm inputs inputs' k :
  NoDup inputs.*1 → inputs ≡ₚ inputs' →
  filter (λ o, origin_key o = k) (origins_of inputs)
  = filter (λ o, origin_key o = k) (origins_of inputs').
Proof.
  intros Hnd Hp. unfold origins_of. rewrite !filter_bind.
  apply bind_perm_single; [by eapply NoDup_fmap_1| |done].
  intros x y Hx Hy Hfx Hfy. apply (same_label inputs); [done..|].
  apply origins_filter_label in Hfx, Hfy.
  rewrite Hfx in Hfy. by injection Hfy.
Qed.

Lemma sorted_origins_perm_eq inputs inputs' :
  NoDup inputs.*1 → inputs ≡ₚ inputs' →
  sorted_origins inputs = sorted_origins inputs'.
Proof.
  intros Hnd Hp.
  apply (sorted_stable_unique origin_leb origin_key origin_leb_tie
           origin_leb_antisym);
    [apply sorted_origins_strongly..|].
  intros k. rewrite !sorted_origins_stable. by apply origins_filter_perm.
Qed.

Lemma sorted_origins_in inputs o : o ∈ sorted_origins inputs → o.1 ∈ inputs.
Proof.
  rewrite sorted_origins_perm, elem_of_origins_of. by intros [? _].
Qed.

Lemma dates_of_origins inputs :
  dates_of inputs
  = unique ((λ o, origin_cell o.1 o.2 "Acquisition Week")
            <$> sorted_origins inputs).
Proof.
  unfold dates_of. rewrite sorted_rows_origins, <- list_fmap_compose.
  f_equal. apply list_fmap_ext. intros i o Ho. unfold compose.
  apply list_elem_of_lookup_2, sorted_origins_in in Ho.
  by apply cell_combine_row.
Qed.

Lemma lookup_finish_week inputs r :
  finish inputs r !! "Week Number" = Some (week_of (dates_of inputs) r).
Proof.
  assert (is_Some (finish inputs r !! "Week Number")) as [w Hw].
  { apply lookup_finish. unfold final_frame, weeked_columns. cbn [columns].
    apply list_elem_of_filter. split.
    - apply elem_of_add_label. auto.
    - unfold target_columns. set_solver. }
  pose proof (cell_finish_week inputs r) as Hc. unfold cell at 1 in Hc.
  rewrite Hw in Hc. simpl in Hc. by rewrite Hw, Hc.
Qed.

Lemma present_perm inputs inputs' c :
  inputs ≡ₚ inputs' → present inputs c ↔ present inputs' c.
Proof.
  intros Hp. unfold present. rewrite !Exists_exists.
  split; intros [?|[?|(input & Hin & Hc)]]; auto; right; right;
    exists input; split; auto; [by rewrite <- Hp|by rewrite Hp].
Qed.

Lemma columns_final_perm inputs inputs' :
  inputs ≠ [] → inputs ≡ₚ inputs' →
  columns (final_frame inputs) = columns (final_frame inputs').
Proof.
  intros Hne Hp.
  assert (inputs' ≠ []) as Hne'.
  { intros ->. by apply Permutation_nil_r in Hp. }
  rewrite !columns_final by done. apply list_filter_iff.
  intros c. by apply present_perm.
Qed.

Lemma final_row_perm inputs inputs' o :
  inputs ≠ [] → NoDup inputs.*1 → inputs ≡ₚ inputs' → o.1 ∈ inputs →
  finish inputs (combine_row inputs o.1 o.2)
  = finish inputs' (combine_row inputs' o.1 o.2).
Proof.
  intros Hne Hnd Hp Ho. assert (o.1 ∈ inputs') as Ho' by (by rewrite <- Hp).
  apply map_eq. intros c.
  destruct (decide (c = "Week Number")) as [->|Hw].
  - rewrite !lookup_finish_week. f_equal. unfold week_of.
    rewrite !cell_combine_row by done.
    by rewrite !dates_of_origins, (sorted_origins_perm_eq inputs inputs').
  - rewrite !lookup_final_row by done.
    by rewrite (columns_final_perm inputs inputs').
Qed.

Lemma final_frame_perm inputs inputs' :
  inputs ≠ [] → NoDup inputs.*1 → inputs ≡ₚ inputs' →
  final_frame inputs = final_frame inputs'.
Proof.
  intros Hne Hnd Hp.
  assert (rows (final_frame inputs) = rows (final_frame inputs')) as Hrows.
  { rewrite !rows_final_origins.
    rewrite <- (sorted_origins_perm_eq inputs inputs') by done.
    apply list_fmap_ext. intros i o Ho.
    apply list_elem_of_lookup_2, sorted_origins_in in Ho.
    by apply final_row_perm. }
  pose proof (columns_final_perm inputs inputs' Hne Hp) as Hcols.
  destruct (final_frame inputs), (final_frame inputs'). simpl in *.
  by subst.
Qed.

Lemma elem_of_column_combined inputs c x :
  x ∈ column c (combined inputs)
  ↔ ∃ o, o ∈ origins_of inputs ∧ x = origin_cell o.1 o.2 c.
Proof.
  unfold column. rewrite rows_combined_origins, <- list_fmap_compose.
  rewrite list_elem_of_fmap. split.
  - intros (o & -> & Ho). exists o. split; [done|].
    apply elem_of_origins_of in Ho as [Ho _]. unfold compose.
    by apply cell_combine_row.
  - intros (o & Ho & ->). exists o. split; [|done].
    apply elem_of_origins_of in Ho as [Ho _]. unfold compose.
    by rewrite cell_combine_row.
Qed.

Lemma origins_of_perm inputs inputs' :
  inputs ≡ₚ inputs' → origins_of inputs ≡ₚ origins_of inputs'.
Proof. intros Hp. unfold origins_of. by rewrite Hp. Qed.

(** X9. With distinct labels the returned table does not depend on the
    order of the entries of the mapping: a call on the same datasets in
    another order returns a table with the same columns, the same rows
    in the same order and the same week numbers; and it returns
    whenever the first call does. *)
Theorem X9_order_of_mapping d d' st st' inputs inputs' out :
  NoDup inputs.*1 → inputs ≡ₚ inputs' →
  resolve (heap st) d = Some inputs → resolve (heap st') d' = Some inputs' →
  returns d st out → returns d' st' out.
Proof.
  intros Hnd Hp Hres Hres' Hret.
  destruct (returns_final _ _ _ _ Hres Hret) as (Hne & HA & Hh & Hs & ->).
  rewrite (final_frame_perm inputs inputs') by done.
  assert (d' ≠ []) as Hd'.
  { intros ->. injection Hres' as <-. by apply Permutation_nil_r in Hp. }
  apply returns_intro; [done..| | |].
  - apply columns_combined. apply columns_combined in HA as (input & Hin & Hc).
    exists input. by rewrite <- Hp.
  - apply homogeneous_true_iff. rewrite homogeneous_true_iff in Hh.
    intros x y Hx Hy. apply Hh; apply elem_of_column_combined.
    + apply elem_of_column_combined in Hx as (o & Ho & ->).
      exists o. by rewrite (origins_of_perm inputs inputs').
    + apply elem_of_column_combined in Hy as (o & Ho & ->).
      exists o. by rewrite (origins_of_perm inputs inputs').
  - rewrite dates_of_origins, <- (sorted_origins_perm_eq inputs inputs') by done.
    by rewrite <- dates_of_origins.
Qed.

Lemma X9_order_of_mapping_witness :
  returns [("Android", 0%nat); ("iOS", 1%nat)] sample_state sample_out.
Proof.
  apply (X9_order_of_mapping sample_dict [("Android", 0%nat); ("iOS", 1%nat)]
           sample_state sample_state sample_inputs
           [("Android", sample_android); ("iOS", sample_ios)]).
  - apply (bool_decide_unpack (NoDup sample_inputs.*1)). vm_compute. exact I.
  - apply Permutation_swap.
  - reflexivity.
  - reflexivity.
  - exact sample_returns.
Defined.

(** ** Rows without a date *)

Lemma final_rows_strongly inputs :
  inputs ≠ [] → "Acquisition Week" ∈ columns (combined inputs) →
  StronglySorted key_le (rows (final_frame inputs)).
Proof.
  intros Hne HA. unfold final_frame. cbn [rows].
  eapply StronglySorted_fmap; [|apply sorted_rows_strongly].
  intros r1 r2 H. apply row_leb_key_le. rewrite <- H.
  apply row_leb_cells; intros c Hc;
    destruct (final_keys inputs c Hne HA Hc) as [Hin Hw];
    by rewrite cell_finish, decide_True, decide_False.
Qed.

Lemma missing_is_last v : ¬ value_lt VMissing v.
Proof. unfold value_lt. by destruct v. Qed.

Lemma column_dates_final inputs :
  inputs ≠ [] → "Acquisition Week" ∈ columns (combined inputs) →
  unique (column "Acquisition Week" (final_frame inputs)) = dates_of inputs.
Proof.
  intros Hne HA. unfold dates_of, column, final_frame. cbn [rows].
  rewrite <- list_fmap_compose. f_equal. apply list_fmap_ext.
  intros i r _. unfold compose. by apply cell_finish_date.
Qed.

(** X10. Rows whose [Acquisition Week] is missing come last in a
    returned table (after a row without a date no row has one), and they
    carry the last week number: [Week N] for the [N] distinct
    [Acquisition Week] cells of the table, the missing one counted. *)
Theorem X10_missing_dates_last d st inputs out :
  resolve (heap st) d = Some inputs → returns d st out →
  (∀ i j r r', rows out !! i = Some r → rows out !! j = Some r' → (i < j)%nat →
               cell r "Acquisition Week" = VMissing →
               cell r' "Acquisition Week" = VMissing)
  ∧ (∀ r, r ∈ rows out → cell r "Acquisition Week" = VMissing →
          cell r "Week Number"
          = VStr ("Week "
                  +:+ pretty (length (unique (column "Acquisition Week" out))))).
Proof.
  intros Hres Hret.
  destruct (returns_final _ _ _ _ Hres Hret) as (Hne & HA & _ & _ & ->).
  split.
  - intros i j r r' Hi Hj Hlt Hm.
    pose proof (StronglySorted_lookup_lt _ _ _ _ _ _
                  (final_rows_strongly inputs Hne HA) Hi Hj Hlt) as Hle.
    unfold key_le in Hle. rewrite Hm in Hle.
    destruct Hle as [Hle|[Heq _]]; [by apply missing_is_last in Hle|done].
  - intros r Hr Hm. rewrite column_dates_final by done.
    unfold final_frame in Hr. cbn [rows] in Hr.
    apply list_elem_of_fmap in Hr as (r0 & -> & Hr0).
    rewrite cell_finish_date in Hm by done. rewrite cell_finish_week.
    destruct (list_elem_of_lookup_1 _ _ (date_in_dates_of _ _ Hr0)) as [i Hi].
    rewrite (week_of_lookup _ _ i) by (apply NoDup_dates_of || done).
    unfold week_label. do 3 f_equal.
    pose proof (lookup_lt_Some _ _ _ Hi) as Hlen.
    destruct (decide (i + 1 = length (dates_of inputs))%nat) as [|Hne']; [done|].
    destruct (lookup_lt_is_Some_2 (dates_of inputs) (S i)) as [v Hv]; [lia|].
    pose proof (StronglySorted_lookup_lt _ _ i (S i) _ _
                  (dates_of_ascending inputs) Hi Hv) as Hlt.
    rewrite Hm in Hlt. destruct (missing_is_last v). apply Hlt. lia.
Qed.

Lemma sample_returns_partial :
  returns [("Android", 0%nat); ("Web", 2%nat)] sample_state sample_out_partial.
Proof.
  exists 7%nat,
    (run_flexible_cohort_analysis [("Android", 0%nat); ("Web", 2%nat)]
       sample_state).2.
  split; vm_compute; reflexivity.
Defined.

Lemma X10_missing_dates_last_witness :
  (∀ i j r r', rows sample_out_partial !! i = Some r →
               rows sample_out_partial !! j = Some r' → (i < j)%nat →
               cell r "Acquisition Week" = VMissing →
               cell r' "Acquisition Week" = VMissing)
  ∧ (∀ r, r ∈ rows sample_out_partial →
          cell r "Acquisition Week" = VMissing →
          cell r "Week Number"
          = VStr ("Week "
                  +:+ pretty (length (unique (column "Acquisition Week"
                                                sample_out_partial))))).
Proof.
  apply (X10_missing_dates_last [("Android", 0%nat); ("Web", 2%nat)]
           sample_state sample_partial_inputs sample_out_partial).
  - reflexivity.
  - exact sample_returns_partial.
Defined.

(** ** Merging a merged table again *)

Lemma stable_sort_sorted {A} (leb : A → A → bool) l :
  StronglySorted (λ a b, leb a b = true) l → stable_sort leb l = l.
Proof.
  induction 1 as [|x l Hl IH Hx]; [done|].
  cbn [stable_sort]. rewrite IH. destruct l as [|y l]; [done|].
  cbn [insert_sorted]. apply Forall_cons in Hx as [-> _]. done.
Qed.

Lemma frame_eq (x y : DataFrame) :
  columns x = columns y → rows x = rows y → x = y.
Proof. destruct x, y. simpl. by intros -> ->. Qed.

Section MergeAgain.
Context (lbl : string) (a : DataFrame).
Let T := final_frame [(lbl, a)].
Hypothesis HA : "Acquisition Week" ∈ columns (combined [(lbl, a)]).

Lemma again_row_in r :
  r ∈ rows T →
  (∀ c, is_Some (r !! c) ↔ c ∈ columns T) ∧ cell r "OS" = VStr lbl.
Proof.
  intros Hr. split.
  - intros c. unfold T, final_frame in Hr. cbn [rows] in Hr.
    apply list_elem_of_fmap in Hr as (r0 & -> & _). apply lookup_finish.
  - unfold T in Hr. rewrite rows_final_origins in Hr.
    apply list_elem_of_fmap in Hr as (o & -> & Ho).
    pose proof (sorted_origins_single _ _ Ho) as Ho1.
    rewrite cell_final_origin; [|rewrite Ho1; left|by apply OS_in_final|done].
    unfold origin_cell. rewrite decide_True by done. by rewrite Ho1.
Qed.

Lemma again_date_column : "Acquisition Week" ∈ columns T.
Proof.
  apply (final_keys [(lbl, a)]); [done..|]. unfold sort_keys. left.
Qed.

Lemma again_origin_cell r c :
  r ∈ rows T → c ∈ columns T → origin_cell (lbl, T) r c = cell r c.
Proof.
  intros Hr Hc. destruct (again_row_in r Hr) as [_ HOS].
  unfold origin_cell. cbn [fst snd].
  destruct (decide (c = "OS")) as [->|_]; [done|]. by rewrite decide_True.
Qed.

Lemma again_origins :
  origins_of [(lbl, T)] = (λ r, ((lbl, T), r)) <$> rows T.
Proof. unfold origins_of. by rewrite bind_cons, bind_nil, app_nil_r. Qed.

Lemma again_rows_sorted :
  StronglySorted (λ r1 r2, row_leb sort_keys r1 r2 = true) (rows T).
Proof.
  eapply StronglySorted_weaken; [|by apply final_rows_strongly].
  intros r1 r2. apply row_leb_key_le.
Qed.

Lemma again_sorted_origins :
  sorted_origins [(lbl, T)] = (λ r, ((lbl, T), r)) <$> rows T.
Proof.
  unfold sorted_origins. rewrite again_origins, stable_sort_fmap. f_equal.
  rewrite (stable_sort_ext _ (row_leb sort_keys)).
  - apply stable_sort_sorted, again_rows_sorted.
  - intros r1 r2 Hr1 Hr2. unfold origin_leb.
    assert (∀ c, c ∈ sort_keys → c ∈ columns T) as Hk.
    { intros c Hc. by apply (final_keys [(lbl, a)]). }
    apply row_leb_cells; intros c Hc; rewrite cell_origin_row;
      by apply again_origin_cell; [|apply Hk].
Qed.

Lemma again_dates : dates_of [(lbl, T)] = dates_of [(lbl, a)].
Proof.
  rewrite dates_of_origins, again_sorted_origins, <- list_fmap_compose.
  rewrite <- (column_dates_final [(lbl, a)]) by done.
  f_equal. apply list_fmap_ext. intros i r Hr. unfold compose.
  apply list_elem_of_lookup_2 in Hr.
  by apply again_origin_cell; [|apply again_date_column].
Qed.

Lemma again_columns : columns (final_frame [(lbl, T)]) = columns T.
Proof.
  unfold T. rewrite !columns_final by done. apply filter_ext_in.
  intros c Hc. unfold present. rewrite !Exists_cons, !Exists_nil. cbn [snd].
  fold T. unfold T at 1. rewrite elem_of_columns_final by done.
  unfold present. rewrite Exists_cons, Exists_nil. cbn [snd]. tauto.
Qed.

Lemma again_row r :
  r ∈ rows T → finish [(lbl, T)] (combine_row [(lbl, T)] (lbl, T) r) = r.
Proof.
  intros Hr. destruct (again_row_in r Hr) as [Hdom HOS].
  apply map_eq. intros c.
  destruct (decide (c = "Week Number")) as [->|Hw].
  - rewrite lookup_finish_week, again_dates. unfold week_of.
    rewrite cell_combine_row by left.
    rewrite again_origin_cell by (done || apply again_date_column).
    unfold T in Hr. unfold final_frame in Hr. cbn [rows] in Hr.
    apply list_elem_of_fmap in Hr as (r0 & -> & _).
    rewrite lookup_finish_week, cell_finish_date by done. done.
  - rewrite (lookup_final_row [(lbl, T)] ((lbl, T), r)) by (done || left).
    rewrite again_columns. cbn [fst snd].
    destruct (decide (c ∈ columns T)) as [Hc|Hc].
    + rewrite again_origin_cell by done.
      apply Hdom in Hc as [v Hv]. unfold cell. by rewrite Hv.
    + symmetry. apply eq_None_not_Some. by rewrite Hdom.
Qed.

Lemma again_final : final_frame [(lbl, T)] = T.
Proof.
  assert (rows (final_frame [(lbl, T)]) = rows T) as Hrows.
  { rewrite rows_final_origins, again_sorted_origins, <- list_fmap_compose.
    rewrite <- (list_fmap_id (rows T)) at 2. apply list_fmap_ext.
    intros i r Hr. unfold compose. cbn [fst snd].
    apply list_elem_of_lookup_2 in Hr. by apply again_row. }
  apply frame_eq; [apply again_columns|done].
Qed.
End MergeAgain.

Lemma again_date_cell lbl a r :
  "Acquisition Week" ∈ columns (combined [(lbl, a)]) →
  r ∈ rows (final_frame [(lbl, a)]) →
  cell r "Acquisition Week" ∈ column "Acquisition Week" (combined [(lbl, a)]).
Proof.
  intros HA Hr. unfold final_frame in Hr. cbn [rows] in Hr.
  apply list_elem_of_fmap in Hr as (r0 & -> & Hr0).
  rewrite cell_finish_date by done. unfold column.
  rewrite <- (sorted_rows_perm [(lbl, a)]). apply list_elem_of_fmap. eauto.
Qed.

(** X11. Merging a merged table again is a no-op: when a call on one
    dataset under a label returns a table, a call on that table under
    the same label returns the same table (same columns, rows, order
    and week numbers). *)
Theorem X11_merge_again d st d2 st2 lbl a T :
  resolve (heap st) d = Some [(lbl, a)] → returns d st T →
  resolve (heap st2) d2 = Some [(lbl, T)] →
  returns d2 st2 T.
Proof.
  intros Hres Hret Hres2.
  destruct (returns_final _ _ _ _ Hres Hret) as (Hne & HA & Hh & Hs & ->).
  assert (d2 ≠ []) as Hd2 by (intros ->; by injection Hres2).
  pose proof (again_final lbl a HA) as Hfin.
  cut (returns d2 st2 (final_frame [(lbl, final_frame [(lbl, a)])]));
    [by rewrite Hfin|].
  apply returns_intro; [done..| | |].
  - apply columns_combined. exists (lbl, final_frame [(lbl, a)]).
    split; [left|]. right. by apply again_date_column.
  - apply homogeneous_true_iff. rewrite homogeneous_true_iff in Hh.
    assert (∀ x, x ∈ column "Acquisition Week"
                       (combined [(lbl, final_frame [(lbl, a)])]) →
                 x ∈ column "Acquisition Week" (combined [(lbl, a)])) as Hin.
    { intros x (o & Ho & ->)%elem_of_column_combined.
      rewrite again_origins in Ho.
      apply list_elem_of_fmap in Ho as (r & -> & Hr). cbn [fst snd].
      rewrite again_origin_cell by (done || by apply again_date_column).
      by apply again_date_cell. }
    intros x y Hx Hy. apply Hh; by apply Hin.
  - by rewrite again_dates.
Qed.

Lemma X11_merge_again_witness :
  returns [("iOS", 0%nat)]
    {| heap := [sample_out_ios]; output := [] |} sample_out_ios.
Proof.
  apply (X11_merge_again [("iOS", 1%nat)] sample_state [("iOS", 0%nat)]
           {| heap := [sample_out_ios]; output := [] |} "iOS" sample_ios).
  - reflexivity.
  - exact sample_returns_ios.
  - reflexivity.
Defined.
